(** * The 2048 grid engine of [src/map.ts]

    A shallow embedding of the grid-transform engine (rotation, the
    leftward line reducer, the move engine, the spawner and the terminal
    detector) together with the properties of its specification.

    Modelling conventions.
    - A JavaScript array is a [list]; [Array.from({length: n}, (_, i) => f i)]
      is [map f (seq 0 n)].
    - A tile value ([number] in the source) is an integer of [Z]: the data
      model only ever stores integers (2, 4, 8, ...), far from the range in
      which doubles stop being exact.
    - [null] is [None]; a cell object is a record.
    - A thrown exception is the [Throw] outcome of the [completion] monad.
    - The two successive outcomes of [Math.random()] consumed by the spawner
      are explicit rational arguments in the half-open interval from 0 to 1. *)

From Stdlib Require Import List ZArith Lia Bool Arith QArith Qround Permutation.
Import ListNotations.

Close Scope Q_scope.

Set Implicit Arguments.

(** ** Exceptions *)

Inductive JsError : Type :=
| NotNByM      (* new Error("Map is not N by M") *)
| TypeError    (* property read on undefined, destructuring of undefined *)
| RangeError.  (* Array.prototype.with with an index out of range *)

Inductive completion (A : Type) : Type :=
| Ok (a : A)
| Throw (e : JsError).

Arguments Ok {A} a.
Arguments Throw {A} e.

Definition bind {A B : Type} (m : completion A) (k : A -> completion B) : completion B :=
  match m with
  | Ok a => k a
  | Throw e => Throw e
  end.

Notation "x <- m ;; k" := (bind m (fun x => k))
  (at level 61, m at next level, right associativity).

Definition raises {A : Type} (m : completion A) : Prop := exists e, m = Throw e.

(** ** Data model (lines 1-12 of map.ts) *)

Inductive CellState : Type := normal | merged | new.

Record CellObject : Type := mkCell { state : CellState; value : Z }.

Definition Cell : Type := option CellObject.
Definition Map2048 : Type := list (list Cell).

Inductive Direction : Type := up | left | right | down.

Inductive RotateDegree : Type := D0 | D90 | D180 | D270.

(** [MoveResult] and the anonymous result type of [moveRowLeft] have the
    same three fields; [A] is [Map2048] for the former and [list Cell] for
    the latter. *)
Record Moved (A : Type) : Type :=
  mkMoved { result : A; isMoved : bool; score : Z }.

Definition MoveResult : Type := Moved Map2048.

(** [c?.value]: [undefined] on [null], the value otherwise. *)
Definition optValue (c : Cell) : option Z :=
  match c with
  | None => None
  | Some o => Some (value o)
  end.

(** [a !== b] on two results of [?.value]. *)
Definition optValue_neqb (a b : option Z) : bool :=
  match a, b with
  | None, None => false
  | Some x, Some y => negb (x =? y)%Z
  | _, _ => true
  end.

(** ** The line reducer, [moveRowLeft] (lines 88-130) *)

Record Acc : Type :=
  mkAcc { lastCell : Cell; accResult : list Cell; accScore : Z }.

(** The callback given to [row.reduce]. *)
Definition reduceStep (acc : Acc) (cell : Cell) : Acc :=
  match cell with
  | None => acc
  | Some c =>
      match lastCell acc with
      | None => mkAcc (Some c) (accResult acc) (accScore acc)
      | Some l =>
          if (value l =? value c)%Z then
            let mergedCell := mkCell merged (value c * 2)%Z in
            mkAcc None (accResult acc ++ [Some mergedCell])
                  (accScore acc + value mergedCell)%Z
          else
            let normalCell := mkCell normal (value l) in
            mkAcc (Some c) (accResult acc ++ [Some normalCell]) (accScore acc)
      end
  end.

Definition initialAcc : Acc := mkAcc None [] 0%Z.

(** [finalResult]: the emitted cells, followed by the pending one if any. *)
Definition finalize (reduced : Acc) : list Cell :=
  match lastCell reduced with
  | Some l => accResult reduced ++ [Some (mkCell normal (value l))]
  | None => accResult reduced
  end.

(** [arr.some((x, i) => f x i)], with the index counted from [i0]. *)
Fixpoint someFrom {A : Type} (f : A -> nat -> bool) (i0 : nat) (l : list A)
  : bool :=
  match l with
  | [] => false
  | x :: l' => f x i0 || someFrom f (S i0) l'
  end.

Definition moveRowLeft (row : list Cell) : Moved (list Cell) :=
  let reduced := fold_left reduceStep row initialAcc in
  let finalResult := finalize reduced in
  let resultRow := map (fun i => nth i finalResult None) (seq 0 (length row)) in
  let moved :=
    someFrom (fun originalCell i =>
                optValue_neqb (optValue originalCell)
                              (optValue (nth i resultRow None)))
             0 row in
  mkMoved resultRow moved (accScore reduced).

(** ** [moveLeft] (lines 77-86) *)

Definition moveLeft (map : Map2048) : MoveResult :=
  let movedRows := List.map moveRowLeft map in
  let res := List.map (fun movedRow => result movedRow) movedRows in
  let moved := existsb (fun movedRow => isMoved movedRow) movedRows in
  let sc := fold_left (fun acc movedRow => acc + score movedRow)%Z movedRows 0%Z in
  mkMoved res moved sc.

(** ** Validation and rotation (lines 37-75) *)

(** [map[0].length]: a [TypeError] when the grid has no row. *)
Definition firstRowLength (map : Map2048) : completion nat :=
  match map with
  | [] => Throw TypeError
  | row0 :: _ => Ok (length row0)
  end.

Definition validateMapIsNByM (map : Map2048) : completion bool :=
  firstColumnCount <- firstRowLength map ;;
  Ok (forallb (fun row => length row =? firstColumnCount) map).

(** [map[r][c]] inside the rotation.  The rotation is private to the module
    and is only applied to grids that passed [validateMapIsNByM] (or to the
    output of [moveLeft] on such a grid); there every read is in range, see
    [cellAt_in_range]. *)
Definition cellAt (map : Map2048) (r c : nat) : Cell :=
  nth c (nth r map []) None.

Definition rotateMapCounterClockwise (map : Map2048) (degree : RotateDegree)
  : completion Map2048 :=
  let rowLength := length map in
  columnLength <- firstRowLength map ;;
  match degree with
  | D0 => Ok map
  | D90 =>
      Ok (List.map (fun columnIndex =>
            List.map (fun rowIndex =>
              cellAt map rowIndex (columnLength - columnIndex - 1))
              (seq 0 rowLength))
            (seq 0 columnLength))
  | D180 =>
      Ok (List.map (fun rowIndex =>
            List.map (fun columnIndex =>
              cellAt map (rowLength - rowIndex - 1)
                         (columnLength - columnIndex - 1))
              (seq 0 columnLength))
            (seq 0 rowLength))
  | D270 =>
      Ok (List.map (fun columnIndex =>
            List.map (fun rowIndex =>
              cellAt map (rowLength - rowIndex - 1) columnIndex)
              (seq 0 rowLength))
            (seq 0 columnLength))
  end.

(** ** Direction tables and the move engine (lines 20-35, 132-144) *)

Definition rotateDegreeMap (d : Direction) : RotateDegree :=
  match d with
  | up => D90
  | right => D180
  | down => D270
  | left => D0
  end.

Definition revertDegreeMap (d : Direction) : RotateDegree :=
  match d with
  | up => D270
  | right => D180
  | down => D90
  | left => D0
  end.

Definition moveMapIn2048Rule (map : Map2048) (direction : Direction)
  : completion MoveResult :=
  valid <- validateMapIsNByM map ;;
  if negb valid then Throw NotNByM
  else
    rotatedMap <- rotateMapCounterClockwise map (rotateDegreeMap direction) ;;
    let moved := moveLeft rotatedMap in
    back <- rotateMapCounterClockwise (result moved) (revertDegreeMap direction) ;;
    Ok (mkMoved back (isMoved moved) (score moved)).


(** ** The spawner, [addNewCell] (lines 146-148, 173-194) *)

(** [map2048[i][j]] outside the rotation: reading a row that does not exist
    throws, reading past the end of a row gives [undefined] ([None] at the
    outer level). *)
Definition index2 {A : Type} (m : list (list A)) (i j : nat)
  : completion (option A) :=
  match nth_error m i with
  | None => Throw TypeError
  | Some row => Ok (nth_error row j)
  end.

(** [x === null] for [x] read from a grid of cells of type [A]. *)
Definition isNull {A : Type} (x : option (option A)) : bool :=
  match x with
  | Some None => true
  | _ => false
  end.

(** A [for] loop threading the variables it assigns. *)
Fixpoint forEachM {A S : Type} (body : S -> A -> completion S) (xs : list A)
  (s : S) : completion S :=
  match xs with
  | [] => Ok s
  | x :: xs' => s' <- body s x ;; forEachM body xs' s'
  end.

Definition collectNullPositions (map2048 : Map2048)
  : completion (list (nat * nat)) :=
  forEachM (fun acc i =>
    forEachM (fun acc j =>
      c <- index2 map2048 i j ;;
      Ok (if isNull c then acc ++ [(i, j)] else acc))
      (seq 0 4) acc)
    (seq 0 4) [].

(** [getRandomInt(max)] on the outcome [u] of [Math.random()]. *)
Definition getRandomInt (u : Q) (max : nat) : Z :=
  Qfloor (u * inject_Z (Z.of_nat max))%Q.

(** [arr.with(i, v)]: a copy of the array with position [i] replaced. *)
Fixpoint replaceAt {A : Type} (l : list A) (i : nat) (v : A) : list A :=
  match l, i with
  | [], _ => []
  | _ :: l', O => v :: l'
  | x :: l', S i' => x :: replaceAt l' i' v
  end.

Definition arrayWith {A : Type} (l : list A) (i : nat) (v : A)
  : completion (list A) :=
  if i <? length l then Ok (replaceAt l i v) else Throw RangeError.

(** [u1] and [u2] are the outcomes of the first and of the second call of
    [Math.random()]. *)
Definition addNewCell (u1 u2 : Q) (map2048 : Map2048) : completion Map2048 :=
  let randomInt1 : Z := if Qlt_le_dec u1 (6 # 10)%Q then 2%Z else 4%Z in
  nullPositions <- collectNullPositions map2048 ;;
  let randomInt2 := getRandomInt u2 (length nullPositions) in
  ij <- (if (randomInt2 <? 0)%Z then Throw TypeError
         else match nth_error nullPositions (Z.to_nat randomInt2) with
              | Some p => Ok p
              | None => Throw TypeError
              end) ;;
  let '(i, j) := ij in
  row <- match nth_error map2048 i with
         | Some r => Ok r
         | None => Throw TypeError
         end ;;
  newRow <- arrayWith row j (Some (mkCell new randomInt1)) ;;
  arrayWith map2048 i newRow.

(** ** The terminal detector, [userLoses] (lines 206-230)

    [userLoses] is the one function of the module that applies [===] to two
    cell objects.  On objects [===] compares references, not contents, so
    here a cell object is a record residing at a heap location, and two
    cells are strictly equal when they are the same location. *)

Definition Loc : Type := nat.

Record Located : Type := mkLocated { loc : Loc; obj : CellObject }.

Definition HeapCell : Type := option Located.
Definition HeapMap2048 : Type := list (list HeapCell).

(** The grid of cell contents, as the other functions see it. *)
Definition contents (m : HeapMap2048) : Map2048 :=
  List.map (List.map (option_map obj)) m.

(** [a === b] for two reads of a grid: [undefined], [null] or a reference. *)
Definition strictEq (a b : option HeapCell) : bool :=
  match a, b with
  | None, None => true
  | Some None, Some None => true
  | Some (Some x), Some (Some y) => loc x =? loc y
  | _, _ => false
  end.

(** A [for] loop whose body may [return v] from the enclosing function
    ([Some v]) or fall through to the next iteration ([None]). *)
Fixpoint forReturn {A R : Type} (body : A -> completion (option R))
  (xs : list A) : completion (option R) :=
  match xs with
  | [] => Ok None
  | x :: xs' =>
      r <- body x ;;
      match r with
      | Some v => Ok (Some v)
      | None => forReturn body xs'
      end
  end.

Definition userLoses (map2048 : HeapMap2048) : completion bool :=
  r1 <- forReturn (fun i =>
          forReturn (fun j =>
            c <- index2 map2048 i j ;;
            if isNull c then Ok (Some false) else Ok None)
            (seq 0 4))
          (seq 0 4) ;;
  match r1 with
  | Some b => Ok b
  | None =>
      r2 <- forReturn (fun i =>
              forReturn (fun j =>
                currentCell <- index2 map2048 i j ;;
                sameRight <- (if j <? 3
                              then (n <- index2 map2048 i (j + 1) ;;
                                    Ok (strictEq currentCell n))
                              else Ok false) ;;
                if sameRight then Ok (Some false)
                else
                  sameBelow <- (if i <? 3
                                then (n <- index2 map2048 (i + 1) j ;;
                                      Ok (strictEq currentCell n))
                                else Ok false) ;;
                  if sameBelow then Ok (Some false) else Ok None)
                (seq 0 4))
              (seq 0 4) ;;
      match r2 with
      | Some b => Ok b
      | None => Ok true
      end
  end.

(** ** [findMaxInMap] (lines 196-204) *)

(** The numbers [Math.max] can return here: [-Infinity] when it is given no
    argument, an integer otherwise. *)
Inductive JsNumber : Type :=
| NegInfinity
| Num (z : Z).

Definition jsMax2 (a b : JsNumber) : JsNumber :=
  match a, b with
  | NegInfinity, x => x
  | x, NegInfinity => x
  | Num x, Num y => Num (Z.max x y)
  end.

(** [Math.max(...xs)]. *)
Definition mathMax (xs : list JsNumber) : JsNumber :=
  fold_left jsMax2 xs NegInfinity.

Definition findMaxInMap (map2048 : Map2048) : JsNumber :=
  mathMax
    (List.map (fun row =>
       mathMax (List.map (fun x => match x with
                                   | Some o => Num (value o)
                                   | None => Num 0
                                   end) row))
       map2048).

(** ** [initializeMap] (lines 150-171) *)

(** The 4x4 board of empty cells built by the two nested [Array.from]. *)
Definition emptyBoard : Map2048 :=
  List.map (fun _ => List.map (fun _ => None) (seq 0 4)) (seq 0 4).

(** [map2048[Math.floor(r / 4)][r % 4] = { state: "new", value: 2 }], an
    assignment in place on the board under construction.  [r] is an outcome
    of [getRandomInt], hence not negative; the column [r % 4] is below 4,
    the length of every row of the board; a row index of 4 or more reads a
    row that does not exist and throws. *)
Definition placeNewTwo (map2048 : Map2048) (r : Z) : completion Map2048 :=
  let i := Z.to_nat (r / 4) in
  let j := Z.to_nat (r mod 4) in
  match nth_error map2048 i with
  | None => Throw TypeError
  | Some row => Ok (replaceAt map2048 i (replaceAt row j (Some (mkCell new 2))))
  end.

(** The [while] loop: [randomInt2] is drawn again as long as it equals
    [randomInt1].  [us] holds the outcomes of the further calls of
    [Math.random()]; [None] means that they are used up while the loop is
    still running. *)
Fixpoint redraw (randomInt1 randomInt2 : Z) (us : list Q) : option Z :=
  if (randomInt1 =? randomInt2)%Z then
    match us with
    | [] => None
    | u :: us' => redraw randomInt1 (getRandomInt u 16) us'
    end
  else Some randomInt2.

(** [u1] and [u2] are the outcomes of the first two calls of
    [Math.random()], [us] those of the calls made by the loop. *)
Definition initializeMap (u1 u2 : Q) (us : list Q)
  : option (completion Map2048) :=
  let randomInt1 := getRandomInt u1 16 in
  match placeNewTwo emptyBoard randomInt1 with
  | Throw e => Some (Throw e)
  | Ok map2048 =>
      match redraw randomInt1 (getRandomInt u2 16) us with
      | None => None
      | Some randomInt2 => Some (placeNewTwo map2048 randomInt2)
      end
  end.

(** ** The grid written to storage (App, lines 377-395)

    The effect that saves the game maps every tile to
    [{ state: "new", value: cell.value }] and every empty cell to [null]. *)
Definition savedGrid (grid : Map2048) : Map2048 :=
  List.map (fun row =>
    List.map (fun cell => match cell with
                          | Some o => Some (mkCell new (value o))
                          | None => None
                          end) row) grid.

(** ** Notions of the specification *)

(** A grid of [R] rows, each of [C] cells. *)
Definition rect {A : Type} (R C : nat) (g : list (list A)) : Prop :=
  length g = R /\ Forall (fun row => length row = C) g.

(** The Grid of the data model: rectangular, with at least one row and at
    least one column. *)
Definition Grid (g : Map2048) : Prop :=
  exists R C, 1 <= R /\ 1 <= C /\ rect R C g.

(** The grid seen value-for-value: per position, empty or the tile value. *)
Definition values (g : Map2048) : list (list (option Z)) :=
  List.map (List.map optValue) g.

Definition cellValue (c : Cell) : Z :=
  match c with
  | None => 0
  | Some o => value o
  end.

Definition rowSum (row : list Cell) : Z :=
  fold_right (fun c acc => cellValue c + acc)%Z 0%Z row.

(** The sum of all tile values of a grid. *)
Definition gridSum (g : Map2048) : Z :=
  fold_right (fun row acc => rowSum row + acc)%Z 0%Z g.

(** The non-empty cells of a row, in order. *)
Fixpoint compact (row : list Cell) : list CellObject :=
  match row with
  | [] => []
  | None :: row' => compact row'
  | Some c :: row' => c :: compact row'
  end.

(** The cell waiting in the accumulator, as a list of at most one tile. *)
Definition pending (acc : Acc) : list CellObject :=
  match lastCell acc with
  | Some l => [l]
  | None => []
  end.

(** Pairwise merging, left to right, as the specification words it: the
    first two tiles merge when their values agree, giving one [merged] tile
    of doubled value that is emitted at once and takes no further part;
    otherwise the first tile is emitted as [normal] and the second starts
    the next pair. *)
Fixpoint mergePairs (cs : list CellObject) : list CellObject :=
  match cs with
  | [] => []
  | a :: t =>
      match t with
      | [] => [mkCell normal (value a)]
      | b :: rest =>
          if (value a =? value b)%Z
          then mkCell merged (2 * value a) :: mergePairs rest
          else mkCell normal (value a) :: mergePairs t
      end
  end.

(** The score of those merges: the doubled value, once per merge. *)
Fixpoint mergeScore (cs : list CellObject) : Z :=
  match cs with
  | [] => 0
  | a :: t =>
      match t with
      | [] => 0
      | b :: rest =>
          if (value a =? value b)%Z
          then (2 * value a + mergeScore rest)%Z
          else mergeScore t
      end
  end.

(** Padding on the right with empty cells up to length [n]. *)
Definition padRight (n : nat) (l : list Cell) : list Cell :=
  l ++ repeat None (n - length l).

(** The angles as numbers. *)
Definition degreeValue (d : RotateDegree) : Z :=
  match d with
  | D0 => 0
  | D90 => 90
  | D180 => 180
  | D270 => 270
  end.

Definition degreeOfZ (z : Z) : option RotateDegree :=
  if (z =? 0)%Z then Some D0
  else if (z =? 90)%Z then Some D90
  else if (z =? 180)%Z then Some D180
  else if (z =? 270)%Z then Some D270
  else None.

(** Composition of rotations: the angles add modulo 360. *)
Definition degreeAdd (a b : RotateDegree) : RotateDegree :=
  match degreeOfZ ((degreeValue a + degreeValue b) mod 360) with
  | Some d => d
  | None => D0
  end.

(** The angle tables of the specification. *)
Definition forwardAngle (d : Direction) : Z :=
  match d with
  | left => 0
  | up => 90
  | right => 180
  | down => 270
  end.

Definition inverseAngle (d : Direction) : Z :=
  ((360 - forwardAngle d) mod 360)%Z.

Definition rotateByAngle (g : Map2048) (angle : Z) : completion Map2048 :=
  match degreeOfZ angle with
  | Some d => rotateMapCounterClockwise g d
  | None => Throw RangeError
  end.

Fixpoint sumZ (l : list Z) : Z :=
  match l with
  | [] => 0
  | x :: l' => (x + sumZ l')%Z
  end.

(** The move engine as the specification words it (section 4.4): validate,
    rotate by the forward angle, reduce every row, stack the rows, combine
    the flags and the scores, rotate back by the inverse angle. *)
Definition moveSpec (g : Map2048) (d : Direction) : completion MoveResult :=
  valid <- validateMapIsNByM g ;;
  if valid then
    rotated <- rotateByAngle g (forwardAngle d) ;;
    let rows := List.map moveRowLeft rotated in
    back <- rotateByAngle (List.map (fun r => result r) rows) (inverseAngle d) ;;
    Ok (mkMoved back
                (existsb (fun r => isMoved r) rows)
                (sumZ (List.map (fun r => score r) rows)))
  else Throw NotNByM.

(** Positions of a 4x4 heap grid. *)
Definition heapCellAt (m : HeapMap2048) (i j : nat) : HeapCell :=
  nth j (nth i m []) None.

Definition is4x4 {A : Type} (m : list (list A)) : Prop :=
  length m = 4 /\ Forall (fun row => length row = 4) m.

Definition tile (s : CellState) (v : Z) : Cell := Some (mkCell s v).

(** The index remapping of section 4.2, for an input of [R] rows and [C]
    columns: the dimensions of the output, and the input position read by
    the output position [(r, c)]. *)
Definition rotRows (d : RotateDegree) (R C : nat) : nat :=
  match d with
  | D0 | D180 => R
  | D90 | D270 => C
  end.

Definition rotCols (d : RotateDegree) (R C : nat) : nat :=
  match d with
  | D0 | D180 => C
  | D90 | D270 => R
  end.

Definition rotSource (d : RotateDegree) (R C : nat) (r c : nat) : nat * nat :=
  match d with
  | D0 => (r, c)
  | D90 => (c, C - 1 - r)
  | D180 => (R - 1 - r, C - 1 - c)
  | D270 => (R - 1 - c, r)
  end.

(** The sum of [f 0 .. f (n-1)]. *)
Fixpoint sumUpTo (n : nat) (f : nat -> Z) : Z :=
  match n with
  | O => 0
  | S n' => (sumUpTo n' f + f n')%Z
  end.

(** The empty positions of the 4x4 board, row by row. *)
Definition isEmptyAt (g : Map2048) (p : nat * nat) : bool :=
  match cellAt g (fst p) (snd p) with
  | None => true
  | Some _ => false
  end.

Definition emptyPositions (g : Map2048) : list (nat * nat) :=
  filter (isEmptyAt g) (list_prod (seq 0 4) (seq 0 4)).

(** The terminal detector in the words of the specification and in the
    terms of the code.  Both scan the 16 positions for an empty cell and for
    a pair of neighbours that agree; the specification compares the values
    of the neighbours, [===] on the two objects compares their locations. *)
Definition heapIsEmpty (c : HeapCell) : bool :=
  match c with
  | None => true
  | Some _ => false
  end.

Definition hasNull (m : HeapMap2048) : bool :=
  existsb (fun i =>
    existsb (fun j => heapIsEmpty (heapCellAt m i j)) (seq 0 4))
    (seq 0 4).

Definition neighboursAgree (agree : HeapCell -> HeapCell -> bool)
  (m : HeapMap2048) : bool :=
  existsb (fun i =>
    existsb (fun j =>
      ((j <? 3) && agree (heapCellAt m i j) (heapCellAt m i (j + 1)))
      || ((i <? 3) && agree (heapCellAt m i j) (heapCellAt m (i + 1) j)))
      (seq 0 4))
    (seq 0 4).

Definition sameObject (a b : HeapCell) : bool := strictEq (Some a) (Some b).

Definition equalValue (a b : HeapCell) : bool :=
  match a, b with
  | Some x, Some y => (value (obj x) =? value (obj y))%Z
  | _, _ => false
  end.

(** [isTerminal] of the specification: no empty cell and no two neighbours
    of equal value. *)
Definition isTerminalSpec (m : HeapMap2048) : bool :=
  negb (hasNull m) && negb (neighboursAgree equalValue m).

(** The locations of the objects of a heap grid, row by row. *)
Definition locations (m : HeapMap2048) : list Loc :=
  flat_map (fun row =>
    flat_map (fun c => match c with
                       | Some x => [loc x]
                       | None => []
                       end) row) m.

(** ** Sample inputs *)

Definition sample23 : Map2048 :=
  [[tile normal 2; tile new 4; None];
   [None; tile merged 8; tile normal 16]].

Definition stuck22 : Map2048 :=
  [[tile new 2; tile normal 4];
   [tile merged 4; tile normal 2]].

Definition ragged : Map2048 :=
  [[tile normal 2]; [tile normal 2; tile normal 4]].

Definition full44 : Map2048 :=
  [[tile normal 2; tile normal 4; tile normal 2; tile normal 4];
   [tile normal 4; tile normal 2; tile normal 4; tile normal 2];
   [tile normal 2; tile normal 4; tile normal 2; tile normal 4];
   [tile normal 4; tile normal 2; tile normal 4; tile normal 2]].

Definition holes44 : Map2048 :=
  [[tile normal 2; None; tile normal 2; tile normal 4];
   [tile normal 4; tile normal 2; tile normal 4; tile normal 2];
   [tile normal 2; tile normal 4; None; tile normal 4];
   [tile normal 4; tile normal 2; tile normal 4; None]].

Definition at_ (l : Loc) (v : Z) : HeapCell :=
  Some (mkLocated l (mkCell normal v)).

(** A full board of sixteen distinct objects whose first two tiles both
    hold 2. *)
Definition mergeable44 : HeapMap2048 :=
  [[at_ 0 2;  at_ 1 2;  at_ 2 4;  at_ 3 8];
   [at_ 4 4;  at_ 5 8;  at_ 6 16; at_ 7 32];
   [at_ 8 2;  at_ 9 4;  at_ 10 8; at_ 11 16];
   [at_ 12 4; at_ 13 8; at_ 14 16; at_ 15 32]].

(** ** Proof automation *)

(** [E] equates two members of a list known to be free of duplicates. *)
Ltac distinct_by E :=
  match goal with
  | H : ~ _ |- False =>
      apply H; clear - E; solve [repeat (first [left; exact E | right])]
  end.

(** ** Further notions used by the properties *)

(** The cells of a grid, row by row. *)
Definition cells (g : Map2048) : list Cell := concat g.

(** A cell-wise transformation of a grid. *)
Definition mapGrid (h : Cell -> Cell) (g : Map2048) : Map2048 :=
  List.map (List.map h) g.

(** A cell carrying the weight [f c] as its value. *)
Definition weigh (f : Cell -> Z) (c : Cell) : Cell :=
  Some (mkCell normal (f c)).

Definition isTile (c : Cell) : bool :=
  match c with
  | Some _ => true
  | None => false
  end.

Definition isMerged (c : Cell) : bool :=
  match c with
  | Some o => match state o with
              | merged => true
              | _ => false
              end
  | None => false
  end.

(** The value of a tile produced by a merge, 0 for any other cell. *)
Definition mergedValue (c : Cell) : Z :=
  if isMerged c then cellValue c else 0%Z.

(** Every tile of the list holds a value that is not negative. *)
Definition nonNegative (l : list Cell) : Prop :=
  forall c, In c l -> (0 <= cellValue c)%Z.

Definition sample44 : Map2048 :=
  [[tile normal 2; tile normal 2; None; tile new 4];
   [None; tile normal 4; tile merged 4; None];
   [tile normal 8; None; None; tile normal 8];
   [None; None; None; tile normal 2]].

(** The outcome of sliding [sample44] to the left. *)
Definition sample44_left : MoveResult :=
  Eval vm_compute in
    match moveMapIn2048Rule sample44 left with
    | Ok r => r
    | Throw _ => mkMoved [] false 0%Z
    end.

Definition countTiles (g : Map2048) : nat :=
  length (filter isTile (cells g)).

Definition countMerged (g : Map2048) : nat :=
  length (filter isMerged (cells g)).

(** The inner [Math.max] of [findMaxInMap], on one row. *)
Definition rowMax (row : list Cell) : JsNumber :=
  mathMax (List.map (fun x => match x with
                              | Some o => Num (value o)
                              | None => Num 0
                              end) row).

(** The 4x4 board holding a new 2 at the positions of ranks [r1] and [r2]
    (row-major) and nothing else. *)
Definition twoTiles (r1 r2 : Z) : Map2048 :=
  List.map (fun i =>
    List.map (fun j =>
      if ((Z.of_nat (4 * i + j) =? r1) || (Z.of_nat (4 * i + j) =? r2))%Z
      then tile new 2 else None)
      (seq 0 4))
    (seq 0 4).

(** The board after the spawn that follows, for two draws equal to 1/2. *)
Definition sample44_turn : Map2048 :=
  Eval vm_compute in
    match addNewCell (1 # 2)%Q (1 # 2)%Q (result sample44_left) with
    | Ok g => g
    | Throw _ => []
    end.

(** * Properties *)

(** ** The line reducer *)

Section LineReducer.

Lemma compact_length (row : list Cell) : length (compact row) <= length row.
Proof.
  induction row as [|[c|] row IH]; simpl; lia.
Qed.

Lemma mergePairs_length_aux (n : nat) :
  forall cs, length cs <= n -> length (mergePairs cs) <= length cs.
Proof.
  induction n as [|n IH]; intros [|a [|b rest]] Hn; simpl in *; try lia.
  destruct (value a =? value b)%Z; simpl.
  - specialize (IH rest). lia.
  - specialize (IH (b :: rest)). simpl in IH. lia.
Qed.

Lemma mergePairs_length (cs : list CellObject) :
  length (mergePairs cs) <= length cs.
Proof. apply (mergePairs_length_aux (n := length cs)). lia. Qed.

(** The fold of [reduceStep], then [finalize], is pairwise merging of the
    pending tile followed by the non-empty cells still to come. *)
Lemma reduce_refines (row : list Cell) :
  forall acc,
    finalize (fold_left reduceStep row acc)
    = accResult acc ++ List.map Some (mergePairs (pending acc ++ compact row))
    /\ accScore (fold_left reduceStep row acc)
       = (accScore acc + mergeScore (pending acc ++ compact row))%Z.
Proof.
  induction row as [|[c|] row IH]; intros acc.
  - unfold finalize, pending; simpl. destruct (lastCell acc); cbn.
    + split; [reflexivity | lia].
    + rewrite app_nil_r. split; [reflexivity | lia].
  - cbn [fold_left].
    destruct (IH (reduceStep acc (Some c))) as [H1 H2]. rewrite H1, H2.
    clear H1 H2 IH. destruct acc as [[l|] res sc];
      unfold reduceStep, pending; cbn [lastCell accResult accScore].
    + cbn [app compact mergePairs mergeScore].
      destruct (value l =? value c)%Z eqn:E;
        cbn [lastCell accResult accScore value app].
      * apply Z.eqb_eq in E. rewrite <- app_assoc. cbn [app List.map].
        replace (value c * 2)%Z with (2 * value l)%Z by lia.
        split; [reflexivity | lia].
      * rewrite <- app_assoc. split; reflexivity.
    + split; reflexivity.
  - cbn [fold_left]. apply IH.
Qed.

Lemma finalize_initial (row : list Cell) :
  finalize (fold_left reduceStep row initialAcc)
  = List.map Some (mergePairs (compact row)).
Proof.
  destruct (reduce_refines row initialAcc) as [H _]. exact H.
Qed.

(** Reading positions [0 .. n-1] with [?? null] pads on the right. *)
Lemma read_pads (l : list Cell) (n : nat) :
  length l <= n ->
  List.map (fun i => nth i l None) (seq 0 n) = padRight n l.
Proof.
  intros Hn. unfold padRight.
  apply nth_ext with (d := None) (d' := None).
  - rewrite length_map, length_seq, length_app, repeat_length. lia.
  - intros i Hi. rewrite length_map, length_seq in Hi.
    rewrite (nth_indep _ None (nth 0 l None))
      by (rewrite length_map, length_seq; exact Hi).
    rewrite (map_nth (fun i => nth i l None)), seq_nth by exact Hi.
    simpl. destruct (Nat.lt_ge_cases i (length l)) as [Hlt|Hge].
    + rewrite app_nth1 by exact Hlt. reflexivity.
    + rewrite app_nth2 by exact Hge. rewrite nth_repeat.
      apply nth_overflow. exact Hge.
Qed.

Lemma moveRowLeft_result (row : list Cell) :
  result (moveRowLeft row)
  = padRight (length row) (List.map Some (mergePairs (compact row))).
Proof.
  unfold moveRowLeft. cbn [result]. rewrite finalize_initial.
  apply read_pads. rewrite length_map.
  pose proof (mergePairs_length (compact row)).
  pose proof (compact_length row). lia.
Qed.

Lemma moveRowLeft_score (row : list Cell) :
  score (moveRowLeft row) = mergeScore (compact row).
Proof.
  unfold moveRowLeft. cbn [score].
  destruct (reduce_refines row initialAcc) as [_ H]. rewrite H.
  reflexivity.
Qed.

Lemma moveRowLeft_length (row : list Cell) :
  length (result (moveRowLeft row)) = length row.
Proof.
  unfold moveRowLeft. cbn [result]. rewrite length_map, length_seq.
  reflexivity.
Qed.

Lemma someFrom_true {A : Type} (f : A -> nat -> bool) (l : list A) :
  forall i0,
    someFrom f i0 l = true
    <-> exists k x, nth_error l k = Some x /\ f x (i0 + k) = true.
Proof.
  induction l as [|a l IH]; intros i0; simpl.
  - split; [discriminate | intros (k & x & H & _); destruct k; discriminate].
  - rewrite orb_true_iff, IH. split.
    + intros [H | (k & x & Hk & Hf)].
      * exists 0, a. rewrite Nat.add_0_r. split; [reflexivity | exact H].
      * exists (S k), x. rewrite Nat.add_succ_r. split; assumption.
    + intros (k & x & Hk & Hf). destruct k as [|k].
      * simpl in Hk. injection Hk as ->. rewrite Nat.add_0_r in Hf.
        left; exact Hf.
      * right. exists k, x. rewrite Nat.add_succ_r in Hf.
        split; assumption.
Qed.

Lemma optValue_neqb_true (a b : option Z) :
  optValue_neqb a b = true <-> a <> b.
Proof.
  destruct a as [x|], b as [y|]; simpl.
  - rewrite negb_true_iff, Z.eqb_neq. split; congruence.
  - split; [discriminate | reflexivity].
  - split; [discriminate | reflexivity].
  - split; [discriminate | congruence].
Qed.

Lemma moveRowLeft_isMoved (row : list Cell) :
  isMoved (moveRowLeft row) = true
  <-> exists i, i < length row /\
        optValue (nth i row None)
        <> optValue (nth i (result (moveRowLeft row)) None).
Proof.
  assert (Hm : isMoved (moveRowLeft row)
               = someFrom (fun originalCell i =>
                   optValue_neqb (optValue originalCell)
                     (optValue (nth i (result (moveRowLeft row)) None)))
                   0 row) by reflexivity.
  rewrite Hm, someFrom_true. split.
  - intros (k & x & Hk & Hf). exists k. split.
    + apply nth_error_Some. congruence.
    + apply optValue_neqb_true in Hf. cbn [Nat.add] in Hf.
      assert (E : nth k row None = x) by (apply nth_error_nth; exact Hk).
      rewrite E. exact Hf.
  - intros (i & Hi & Hne). exists i, (nth i row None). split.
    + apply nth_error_nth'. exact Hi.
    + apply optValue_neqb_true. exact Hne.
Qed.

End LineReducer.

(** ** Rectangular grids *)

Section Rectangles.

Context {A : Type} (dflt : A).

Lemma rect_row_length (R C : nat) (g : list (list A)) (r : nat) :
  rect R C g -> r < R -> length (nth r g []) = C.
Proof.
  intros [HR HC] Hr. rewrite Forall_forall in HC.
  apply HC, nth_In. lia.
Qed.

(** Two grids of the same dimensions that agree at every position are
    equal. *)
Lemma rect_ext (R C : nat) (g g' : list (list A)) :
  rect R C g -> rect R C g' ->
  (forall r c, r < R -> c < C ->
     nth c (nth r g []) dflt = nth c (nth r g' []) dflt) ->
  g = g'.
Proof.
  intros Hg Hg' Hpt.
  apply nth_ext with (d := []) (d' := []).
  - destruct Hg, Hg'. congruence.
  - intros r Hr. assert (Hr' : r < R) by (destruct Hg; lia).
    apply nth_ext with (d := dflt) (d' := dflt).
    + rewrite (rect_row_length Hg Hr'), (rect_row_length Hg' Hr').
      reflexivity.
    + intros c Hc. rewrite (rect_row_length Hg Hr') in Hc.
      apply Hpt; assumption.
Qed.

Lemma tabulate_rect (R C : nat) (f : nat -> nat -> A) :
  rect R C (List.map (fun r => List.map (fun c => f r c) (seq 0 C)) (seq 0 R)).
Proof.
  split.
  - rewrite length_map, length_seq. reflexivity.
  - apply Forall_forall. intros row Hin.
    apply in_map_iff in Hin. destruct Hin as (r & <- & _).
    rewrite length_map, length_seq. reflexivity.
Qed.

Lemma tabulate_nth (R C : nat) (f : nat -> nat -> A) (r c : nat) :
  r < R -> c < C ->
  nth c (nth r (List.map (fun r => List.map (fun c => f r c) (seq 0 C))
                         (seq 0 R)) []) dflt
  = f r c.
Proof.
  intros Hr Hc.
  rewrite (nth_indep _ [] (List.map (fun c => f 0 c) (seq 0 C)))
    by (rewrite length_map, length_seq; exact Hr).
  rewrite (map_nth (fun r => List.map (fun c => f r c) (seq 0 C))).
  rewrite seq_nth by exact Hr. cbn [Nat.add].
  rewrite (nth_indep _ dflt (f r 0))
    by (rewrite length_map, length_seq; exact Hc).
  rewrite (map_nth (fun c => f r c)).
  rewrite seq_nth by exact Hc. reflexivity.
Qed.

End Rectangles.

Lemma rect_firstRowLength (R C : nat) (g : Map2048) :
  rect R C g -> 1 <= R -> firstRowLength g = Ok C.
Proof.
  intros [HR HC] H1. destruct g as [|row0 g]; simpl in *; [lia|].
  inversion HC; subst. reflexivity.
Qed.

(** Inside a rectangular grid every read of the rotation is in range. *)
Lemma cellAt_in_range (R C : nat) (g : Map2048) (r c : nat) :
  rect R C g -> r < R -> c < C ->
  exists row, nth_error g r = Some row /\ nth_error row c = Some (cellAt g r c).
Proof.
  intros Hg Hr Hc. exists (nth r g []). split.
  - apply nth_error_nth'. destruct Hg; lia.
  - unfold cellAt. apply nth_error_nth'.
    rewrite (rect_row_length Hg Hr). exact Hc.
Qed.

(** ** Rotation *)

Section Rotation.

Variables (R C : nat) (g : Map2048).
Hypothesis Hrect : rect R C g.
Hypothesis Hrows : 1 <= R.

(** The rotation of a rectangular grid with at least one row: it returns,
    the output has the rotated dimensions and each output cell is the
    input cell that the remapping designates. *)
Lemma rotate_remaps (d : RotateDegree) :
  exists g',
    rotateMapCounterClockwise g d = Ok g'
    /\ rect (rotRows d R C) (rotCols d R C) g'
    /\ forall r c, r < rotRows d R C -> c < rotCols d R C ->
         cellAt g' r c
         = cellAt g (fst (rotSource d R C r c)) (snd (rotSource d R C r c)).
Proof.
  unfold rotateMapCounterClockwise.
  rewrite (rect_firstRowLength Hrect Hrows). cbn [bind].
  assert (HR : length g = R) by (destruct Hrect; assumption).
  rewrite HR.
  destruct d; cbn [rotRows rotCols rotSource fst snd];
    eexists; (split; [reflexivity|]).
  - split; [exact Hrect | reflexivity].
  - split; [apply tabulate_rect|]. intros r c Hr Hc.
    unfold cellAt at 1. rewrite tabulate_nth by assumption.
    f_equal. lia.
  - split; [apply tabulate_rect|]. intros r c Hr Hc.
    unfold cellAt at 1. rewrite tabulate_nth by assumption.
    f_equal; lia.
  - split; [apply tabulate_rect|]. intros r c Hr Hc.
    unfold cellAt at 1. rewrite tabulate_nth by assumption.
    f_equal; lia.
Qed.

End Rotation.

Lemma rotRows_positive (d : RotateDegree) (R C : nat) :
  1 <= R -> 1 <= C -> 1 <= rotRows d R C.
Proof. destruct d; simpl; lia. Qed.

Lemma rotCols_positive (d : RotateDegree) (R C : nat) :
  1 <= R -> 1 <= C -> 1 <= rotCols d R C.
Proof. destruct d; simpl; lia. Qed.

Lemma degreeAdd_value (a b : RotateDegree) :
  degreeValue (degreeAdd a b) = ((degreeValue a + degreeValue b) mod 360)%Z.
Proof. destruct a, b; reflexivity. Qed.

(** Rotating by [a] and then by [b] is rotating by their sum modulo 360. *)
Lemma rotate_compose (R C : nat) (g : Map2048) (a b : RotateDegree) :
  rect R C g -> 1 <= R -> 1 <= rotRows a R C ->
  exists g1,
    rotateMapCounterClockwise g a = Ok g1
    /\ rotateMapCounterClockwise g1 b
       = rotateMapCounterClockwise g (degreeAdd a b).
Proof.
  intros Hrect HR HC.
  destruct (rotate_remaps Hrect HR a) as (g1 & E1 & Hr1 & Hp1).
  exists g1. split; [exact E1|].
  destruct (rotate_remaps Hr1 HC b) as (g2 & E2 & Hr2 & Hp2).
  destruct (rotate_remaps Hrect HR (degreeAdd a b)) as (g3 & E3 & Hr3 & Hp3).
  rewrite E2, E3. f_equal. clear E1 E2 E3.
  destruct a, b; vm_compute degreeAdd in *;
    cbn [rotRows rotCols rotSource fst snd] in *;
    (apply (rect_ext None Hr2 Hr3); intros r c Hr Hc;
     change (cellAt g2 r c = cellAt g3 r c);
     rewrite Hp2, Hp3 by lia; rewrite Hp1 by lia; f_equal; lia).
Qed.

(** C6: for an [R]-by-[C] rectangular grid, the rotation by 90 degrees gives
    a [C]-by-[R] grid with [output[c][r] = input[r][C-1-c]], the rotation by
    180 degrees an [R]-by-[C] grid with
    [output[r][c] = input[R-1-r][C-1-c]], and the rotation by 270 degrees a
    [C]-by-[R] grid with [output[c][r] = input[R-1-r][c]]. *)
Theorem rotate_index_remapping (R C : nat) (g : Map2048) :
  rect R C g -> 1 <= R ->
  (exists o, rotateMapCounterClockwise g D90 = Ok o /\ rect C R o
     /\ forall r c, r < R -> c < C -> cellAt o c r = cellAt g r (C - 1 - c))
  /\ (exists o, rotateMapCounterClockwise g D180 = Ok o /\ rect R C o
     /\ forall r c, r < R -> c < C ->
          cellAt o r c = cellAt g (R - 1 - r) (C - 1 - c))
  /\ (exists o, rotateMapCounterClockwise g D270 = Ok o /\ rect C R o
     /\ forall r c, r < R -> c < C -> cellAt o c r = cellAt g (R - 1 - r) c).
Proof.
  intros Hrect HR. split; [|split].
  - destruct (rotate_remaps Hrect HR D90) as (o & E & Hr & Hp).
    exists o. split; [exact E|]. split; [exact Hr|].
    intros r c Hlr Hlc. apply (Hp c r); assumption.
  - destruct (rotate_remaps Hrect HR D180) as (o & E & Hr & Hp).
    exists o. split; [exact E|]. split; [exact Hr|].
    intros r c Hlr Hlc. apply (Hp r c); assumption.
  - destruct (rotate_remaps Hrect HR D270) as (o & E & Hr & Hp).
    exists o. split; [exact E|]. split; [exact Hr|].
    intros r c Hlr Hlc. apply (Hp c r); assumption.
Qed.

Lemma rotate_index_remapping_witness :
  (exists o, rotateMapCounterClockwise sample23 D90 = Ok o /\ rect 3 2 o
     /\ forall r c, r < 2 -> c < 3 -> cellAt o c r = cellAt sample23 r (3 - 1 - c))
  /\ (exists o, rotateMapCounterClockwise sample23 D180 = Ok o /\ rect 2 3 o
     /\ forall r c, r < 2 -> c < 3 ->
          cellAt o r c = cellAt sample23 (2 - 1 - r) (3 - 1 - c))
  /\ (exists o, rotateMapCounterClockwise sample23 D270 = Ok o /\ rect 3 2 o
     /\ forall r c, r < 2 -> c < 3 -> cellAt o c r = cellAt sample23 (2 - 1 - r) c).
Proof.
  apply (@rotate_index_remapping 2 3 sample23).
  - split; [reflexivity | repeat constructor].
  - lia.
Defined.

(** C5: on a grid of the data model, rotating by 0 degrees is the identity,
    rotating by 90 and then by 270 degrees gives the grid back, and more
    generally rotating by [a] gives a grid of the data model again, and
    rotating it by [b] is rotating the original by [(a + b) mod 360]: the
    rotations act as the cyclic group of order 4. *)
Theorem rotation_group_action (g : Map2048) :
  Grid g ->
  rotateMapCounterClockwise g D0 = Ok g
  /\ (exists g90, rotateMapCounterClockwise g D90 = Ok g90
                  /\ rotateMapCounterClockwise g90 D270 = Ok g)
  /\ (forall a b, exists g1,
         rotateMapCounterClockwise g a = Ok g1
         /\ Grid g1
         /\ rotateMapCounterClockwise g1 b
            = rotateMapCounterClockwise g (degreeAdd a b))
  /\ (forall a b,
         degreeValue (degreeAdd a b)
         = ((degreeValue a + degreeValue b) mod 360)%Z).
Proof.
  intros (R & C & HR & HC & Hrect).
  assert (H0 : rotateMapCounterClockwise g D0 = Ok g).
  { unfold rotateMapCounterClockwise.
    rewrite (rect_firstRowLength Hrect HR). reflexivity. }
  split; [exact H0|]. split; [|split].
  - destruct (rotate_compose D90 D270 Hrect HR HC) as (g1 & E1 & E2).
    exists g1. split; [exact E1|]. rewrite E2. exact H0.
  - intros a b.
    destruct (rotate_compose a b Hrect HR (rotRows_positive a HR HC))
      as (g1 & E1 & E2).
    exists g1. split; [exact E1|]. split; [|exact E2].
    destruct (rotate_remaps Hrect HR a) as (o & Eo & Hro & _).
    rewrite E1 in Eo. injection Eo as <-.
    exists (rotRows a R C), (rotCols a R C).
    split; [apply rotRows_positive; assumption|].
    split; [apply rotCols_positive; assumption | exact Hro].
  - apply degreeAdd_value.
Qed.

Lemma sample23_Grid : Grid sample23.
Proof.
  exists 2, 3. split; [lia|]. split; [lia|].
  split; [reflexivity | repeat constructor].
Qed.

Lemma rotation_group_action_witness :
  rotateMapCounterClockwise sample23 D0 = Ok sample23
  /\ (exists g90, rotateMapCounterClockwise sample23 D90 = Ok g90
                  /\ rotateMapCounterClockwise g90 D270 = Ok sample23)
  /\ (forall a b, exists g1,
         rotateMapCounterClockwise sample23 a = Ok g1
         /\ Grid g1
         /\ rotateMapCounterClockwise g1 b
            = rotateMapCounterClockwise sample23 (degreeAdd a b))
  /\ (forall a b,
         degreeValue (degreeAdd a b)
         = ((degreeValue a + degreeValue b) mod 360)%Z).
Proof.
  apply (rotation_group_action sample23_Grid).
Defined.

(** ** Claims on the line reducer *)

Lemma optValue_nth (row : list Cell) (i : nat) :
  nth i (List.map optValue row) None = optValue (nth i row None).
Proof. apply (map_nth optValue row None i). Qed.

Lemma option_Z_eq_dec (a b : option Z) : {a = b} + {a <> b}.
Proof. decide equality. apply Z.eq_dec. Qed.

(** The reducer reports no move exactly when the row it returns agrees with
    the original row value-for-value, whatever the states. *)
Lemma moveRowLeft_not_moved (row : list Cell) :
  isMoved (moveRowLeft row) = false
  <-> List.map optValue (result (moveRowLeft row)) = List.map optValue row.
Proof.
  rewrite <- not_true_iff_false, moveRowLeft_isMoved. split.
  - intros Hno. apply nth_ext with (d := None) (d' := None).
    + rewrite !length_map. apply moveRowLeft_length.
    + intros i Hi. rewrite length_map, moveRowLeft_length in Hi.
      rewrite !optValue_nth.
      destruct (option_Z_eq_dec (optValue (nth i row None))
                  (optValue (nth i (result (moveRowLeft row)) None)))
        as [E|NE]; [symmetry; exact E|].
      exfalso. apply Hno. exists i. split; assumption.
  - intros Heq (i & Hi & Hne). apply Hne.
    rewrite <- !optValue_nth. rewrite Heq. reflexivity.
Qed.

Lemma padRight_cons_snoc (n : nat) (x : Cell) (l : list Cell) :
  length l <= n ->
  padRight (S (S n)) (x :: l) = x :: padRight n l ++ [None].
Proof.
  intros Hn. unfold padRight. cbn [length app].
  replace (S (S n) - S (length l)) with (S (n - length l)) by lia.
  rewrite <- app_assoc. f_equal. f_equal.
  cbn [repeat]. apply repeat_cons.
Qed.

(** C2: the line reducer merges equal-valued non-empty cells pairwise from
    the left: its output is the pairwise merging of the non-empty cells,
    padded with empty cells, and its score the sum of the doubled values of
    the merges.  A row that starts with two tiles of one value [v] gives one
    [merged] tile of value [2 * v], adds [2 * v] to the score, and the rest
    of the row is reduced on its own, so the merged tile takes no part in a
    second merge.  In particular [[2,2,2,_]] gives [[4,2,_,_]], moved, with
    score 4. *)
Theorem moveRowLeft_merges_pairwise :
  (forall row,
      result (moveRowLeft row)
      = padRight (length row) (List.map Some (mergePairs (compact row)))
      /\ score (moveRowLeft row) = mergeScore (compact row))
  /\ (forall s1 s2 v rest,
         result (moveRowLeft (tile s1 v :: tile s2 v :: rest))
         = tile merged (2 * v) :: result (moveRowLeft rest) ++ [None]
         /\ score (moveRowLeft (tile s1 v :: tile s2 v :: rest))
            = (2 * v + score (moveRowLeft rest))%Z)
  /\ moveRowLeft [tile normal 2; tile normal 2; tile normal 2; None]
     = mkMoved [tile merged 4; tile normal 2; None; None] true 4
  /\ moveRowLeft [tile normal 2; tile normal 2; tile normal 4; None]
     = mkMoved [tile merged 4; tile normal 4; None; None] true 4.
Proof.
  split; [|split; [|split]].
  - intros row. split; [apply moveRowLeft_result | apply moveRowLeft_score].
  - intros s1 s2 v rest. rewrite !moveRowLeft_result, !moveRowLeft_score.
    unfold tile. cbn [compact mergePairs mergeScore value length].
    rewrite Z.eqb_refl. cbn [List.map]. split; [|reflexivity].
    apply padRight_cons_snoc. rewrite length_map.
    pose proof (mergePairs_length (compact rest)).
    pose proof (compact_length rest). lia.
  - reflexivity.
  - reflexivity.
Qed.

(** C3: the moved flag of the line reducer is true exactly when the value at
    some index of the resulting row differs from the value at that index of
    the original row; equivalently it is false exactly when the two rows
    agree value-for-value.  A tile whose state alone changes ([new] to
    [normal]) leaves the flag false, and so does an empty position that
    stays empty. *)
Theorem moveRowLeft_moved_iff_value_differs :
  (forall row,
      isMoved (moveRowLeft row) = true
      <-> exists i, i < length row /\
            optValue (nth i row None)
            <> optValue (nth i (result (moveRowLeft row)) None))
  /\ (forall row,
         isMoved (moveRowLeft row) = false
         <-> List.map optValue (result (moveRowLeft row))
             = List.map optValue row)
  /\ moveRowLeft [tile new 2; None] = mkMoved [tile normal 2; None] false 0
  /\ moveRowLeft [None; None; None; None]
     = mkMoved [None; None; None; None] false 0
  /\ optValue_neqb (optValue None) (optValue None) = false.
Proof.
  split; [|split; [|split; [|split]]].
  - apply moveRowLeft_isMoved.
  - apply moveRowLeft_not_moved.
  - reflexivity.
  - reflexivity.
  - reflexivity.
Qed.

(** ** Sums of tile values *)

Section Sums.

Lemma sumUpTo_ext (n : nat) (f h : nat -> Z) :
  (forall i, i < n -> f i = h i) -> sumUpTo n f = sumUpTo n h.
Proof.
  induction n as [|n IH]; intros Hfh; simpl; [reflexivity|].
  rewrite IH by (intros; apply Hfh; lia). rewrite Hfh by lia. reflexivity.
Qed.

Lemma sumUpTo_shift (n : nat) (f : nat -> Z) :
  sumUpTo (S n) f = (f 0%nat + sumUpTo n (fun i => f (S i)))%Z.
Proof.
  induction n as [|n IH]; [simpl; lia|].
  change (sumUpTo (S (S n)) f) with (sumUpTo (S n) f + f (S n))%Z.
  rewrite IH. simpl. lia.
Qed.

Lemma sumUpTo_reverse (n : nat) :
  forall f, sumUpTo n (fun i => f (n - 1 - i)) = sumUpTo n f.
Proof.
  induction n as [|n IH]; intros f; [reflexivity|].
  rewrite (sumUpTo_shift n f). cbn [sumUpTo].
  replace (S n - 1 - n) with 0 by lia.
  rewrite <- (IH (fun i => f (S i))).
  rewrite (@sumUpTo_ext n (fun i => f (S n - 1 - i))
                          (fun i => f (S (n - 1 - i)))).
  - lia.
  - intros i Hi. f_equal. lia.
Qed.

Lemma sumUpTo_plus (n : nat) (f h : nat -> Z) :
  sumUpTo n (fun i => f i + h i)%Z = (sumUpTo n f + sumUpTo n h)%Z.
Proof.
  induction n as [|n IH]; simpl; [reflexivity|]. rewrite IH. lia.
Qed.

Lemma sumUpTo_exchange (n m : nat) (f : nat -> nat -> Z) :
  sumUpTo n (fun i => sumUpTo m (fun j => f i j))
  = sumUpTo m (fun j => sumUpTo n (fun i => f i j)).
Proof.
  induction n as [|n IH]; simpl.
  - induction m as [|m IHm]; simpl; [reflexivity|]. rewrite <- IHm. reflexivity.
  - rewrite IH. rewrite sumUpTo_plus. reflexivity.
Qed.

Lemma rowSum_app (l1 l2 : list Cell) :
  rowSum (l1 ++ l2) = (rowSum l1 + rowSum l2)%Z.
Proof.
  induction l1 as [|c l1 IH]; simpl; [reflexivity|].
  rewrite IH. lia.
Qed.

Lemma rowSum_repeat_None (n : nat) : rowSum (repeat None n) = 0%Z.
Proof. induction n as [|n IH]; simpl; [reflexivity | exact IH]. Qed.

Lemma rowSum_sumUpTo (row : list Cell) :
  rowSum row = sumUpTo (length row) (fun c => cellValue (nth c row None)).
Proof.
  induction row as [|x row IH]; [reflexivity|].
  cbn [length]. rewrite sumUpTo_shift. simpl. rewrite IH. reflexivity.
Qed.

Lemma gridSum_sumUpTo (g : Map2048) :
  gridSum g = sumUpTo (length g) (fun r => rowSum (nth r g [])).
Proof.
  induction g as [|row g IH]; [reflexivity|].
  cbn [length]. rewrite sumUpTo_shift. simpl. rewrite IH. reflexivity.
Qed.

(** The sum of a rectangular grid as a double sum over its positions. *)
Lemma gridSum_positions (R C : nat) (g : Map2048) :
  rect R C g ->
  gridSum g
  = sumUpTo R (fun r => sumUpTo C (fun c => cellValue (cellAt g r c))).
Proof.
  intros Hrect. rewrite gridSum_sumUpTo.
  assert (HR : length g = R) by (destruct Hrect; assumption).
  rewrite HR. apply sumUpTo_ext. intros r Hr.
  rewrite rowSum_sumUpTo, (rect_row_length Hrect Hr). reflexivity.
Qed.

(** Rotation only rearranges the cells. *)
Lemma gridSum_rotate (R C : nat) (g g' : Map2048) (d : RotateDegree) :
  rect R C g -> 1 <= R ->
  rotateMapCounterClockwise g d = Ok g' ->
  gridSum g' = gridSum g.
Proof.
  intros Hrect HR E.
  destruct (rotate_remaps Hrect HR d) as (o & Eo & Hro & Hpo).
  rewrite E in Eo. injection Eo as <-.
  rewrite (gridSum_positions Hro), (gridSum_positions Hrect).
  rewrite (@sumUpTo_ext _ _
             (fun r => sumUpTo (rotCols d R C)
                (fun c => cellValue (cellAt g (fst (rotSource d R C r c))
                                              (snd (rotSource d R C r c))))));
    [| intros r Hr; apply sumUpTo_ext; intros c Hc;
       rewrite Hpo by assumption; reflexivity ].
  clear Hpo Hro E. destruct d; cbn [rotRows rotCols rotSource fst snd].
  - reflexivity.
  - rewrite sumUpTo_exchange. apply sumUpTo_ext. intros r _.
    apply (sumUpTo_reverse C (fun c => cellValue (cellAt g r c))).
  - rewrite (sumUpTo_reverse R
               (fun r => sumUpTo C (fun c => cellValue (cellAt g r (C - 1 - c))))).
    apply sumUpTo_ext. intros r _.
    apply (sumUpTo_reverse C (fun c => cellValue (cellAt g r c))).
  - rewrite sumUpTo_exchange.
    apply (sumUpTo_reverse R
             (fun r => sumUpTo C (fun c => cellValue (cellAt g r c)))).
Qed.

Lemma rowSum_mergePairs_aux (n : nat) :
  forall cs, length cs <= n ->
    rowSum (List.map Some (mergePairs cs)) = rowSum (List.map Some cs).
Proof.
  induction n as [|n IH]; intros [|a [|b rest]] Hn;
    try reflexivity; cbn [length] in Hn; try lia.
  cbn [mergePairs].
  destruct (value a =? value b)%Z eqn:E;
    cbn [List.map rowSum fold_right cellValue value].
  - apply Z.eqb_eq in E.
    change (fold_right (fun c acc => cellValue c + acc)%Z 0%Z
              (List.map Some (mergePairs rest)))
      with (rowSum (List.map Some (mergePairs rest))).
    rewrite (IH rest) by lia. unfold rowSum. lia.
  - f_equal. apply (IH (b :: rest)). cbn [length]. lia.
Qed.

Lemma rowSum_compact (row : list Cell) :
  rowSum (List.map Some (compact row)) = rowSum row.
Proof.
  induction row as [|[c|] row IH]; simpl; [reflexivity | | exact IH].
  rewrite IH. reflexivity.
Qed.

(** Each merge replaces two tiles of value [v] by one tile of value
    [2 * v]; sliding and padding add and drop nothing. *)
Lemma rowSum_moveRowLeft (row : list Cell) :
  rowSum (result (moveRowLeft row)) = rowSum row.
Proof.
  rewrite moveRowLeft_result. unfold padRight.
  rewrite rowSum_app, rowSum_repeat_None.
  rewrite (rowSum_mergePairs_aux (n := length (compact row))) by lia.
  rewrite rowSum_compact. lia.
Qed.

Lemma moveLeft_result (g : Map2048) :
  result (moveLeft g) = List.map (fun row => result (moveRowLeft row)) g.
Proof. unfold moveLeft. cbn [result]. apply map_map. Qed.

Lemma gridSum_moveLeft (g : Map2048) :
  gridSum (result (moveLeft g)) = gridSum g.
Proof.
  rewrite moveLeft_result.
  induction g as [|row g IH]; [reflexivity|].
  cbn [List.map gridSum fold_right]. fold (gridSum g).
  fold (gridSum (List.map (fun row => result (moveRowLeft row)) g)).
  rewrite rowSum_moveRowLeft, IH. reflexivity.
Qed.

End Sums.

(** ** The move engine *)

Section MoveEngine.

Lemma validate_rect (R C : nat) (g : Map2048) :
  rect R C g -> 1 <= R -> validateMapIsNByM g = Ok true.
Proof.
  intros Hrect HR. unfold validateMapIsNByM.
  rewrite (rect_firstRowLength Hrect HR). cbn [bind]. f_equal.
  apply forallb_forall. intros row Hin. apply Nat.eqb_eq.
  destruct Hrect as [_ HC]. rewrite Forall_forall in HC. auto.
Qed.

Lemma validate_outcome (g : Map2048) :
  g <> [] ->
  validateMapIsNByM g
  = Ok (forallb (fun row => length row =? length (hd [] g)) g).
Proof. destruct g as [|row0 g]; [congruence | reflexivity]. Qed.

Lemma validate_false_iff (g : Map2048) :
  g <> [] ->
  validateMapIsNByM g = Ok false
  <-> exists row, In row g /\ length row <> length (hd [] g).
Proof.
  intros Hne. rewrite (validate_outcome Hne). split.
  - intros H. injection H as H.
    destruct (existsb (fun row => negb (length row =? length (hd [] g))) g)
      eqn:E.
    + apply existsb_exists in E. destruct E as (row & Hin & Hn).
      exists row. split; [exact Hin|].
      apply negb_true_iff, Nat.eqb_neq in Hn. exact Hn.
    + exfalso. rewrite <- not_true_iff_false in H. apply H.
      apply forallb_forall. intros row Hin.
      rewrite <- not_true_iff_false in E.
      destruct (length row =? length (hd [] g)) eqn:E'; [reflexivity|].
      exfalso. apply E. apply existsb_exists. exists row.
      split; [exact Hin | rewrite E'; reflexivity].
  - intros (row & Hin & Hn). f_equal. apply not_true_iff_false.
    intros H. rewrite forallb_forall in H. apply Hn, Nat.eqb_eq, H, Hin.
Qed.

Lemma validate_true_rect (g : Map2048) :
  validateMapIsNByM g = Ok true ->
  1 <= length g /\ rect (length g) (length (hd [] g)) g.
Proof.
  destruct g as [|row0 g]; [discriminate|]. intros H.
  rewrite validate_outcome in H by discriminate.
  assert (H' : forallb (fun row => length row =? length (hd [] (row0 :: g)))
                       (row0 :: g) = true) by congruence.
  split; [simpl; lia|]. split; [reflexivity|].
  apply Forall_forall. intros row Hin. apply Nat.eqb_eq.
  rewrite forallb_forall in H'. apply H'. exact Hin.
Qed.

Lemma moveLeft_rect (R C : nat) (g : Map2048) :
  rect R C g -> rect R C (result (moveLeft g)).
Proof.
  intros [HR HC]. rewrite moveLeft_result. split.
  - rewrite length_map. exact HR.
  - apply Forall_forall. intros row Hin.
    apply in_map_iff in Hin. destruct Hin as (row0 & <- & Hin0).
    rewrite moveRowLeft_length. rewrite Forall_forall in HC. auto.
Qed.

Lemma moveLeft_isMoved (g : Map2048) :
  isMoved (moveLeft g) = existsb (fun row => isMoved (moveRowLeft row)) g.
Proof.
  unfold moveLeft. cbn [isMoved].
  induction g as [|row g IH]; [reflexivity|].
  cbn [List.map existsb]. rewrite IH. reflexivity.
Qed.

Lemma fold_score (l : list (Moved (list Cell))) :
  forall a,
    fold_left (fun acc movedRow => acc + score movedRow)%Z l a
    = (a + sumZ (List.map (fun r => score r) l))%Z.
Proof.
  induction l as [|x l IH]; intros a; cbn [fold_left List.map sumZ];
    [lia|]. rewrite IH. lia.
Qed.

Lemma moveLeft_score (g : Map2048) :
  score (moveLeft g)
  = sumZ (List.map (fun r => score r) (List.map moveRowLeft g)).
Proof. unfold moveLeft. cbn [score]. rewrite fold_score. lia. Qed.

Lemma revert_is_inverse (d : Direction) :
  degreeAdd (rotateDegreeMap d) (revertDegreeMap d) = D0.
Proof. destruct d; reflexivity. Qed.

Variables (R C : nat) (g : Map2048).
Hypothesis Hrect : rect R C g.
Hypothesis Hrows : 1 <= R.

(** Rotating back undoes the forward rotation. *)
Lemma rotate_back (d : Direction) (rotated : Map2048) :
  1 <= rotRows (rotateDegreeMap d) R C ->
  rotateMapCounterClockwise g (rotateDegreeMap d) = Ok rotated ->
  rotateMapCounterClockwise rotated (revertDegreeMap d) = Ok g.
Proof.
  intros Hpos E.
  destruct (rotate_compose (rotateDegreeMap d) (revertDegreeMap d)
              Hrect Hrows Hpos) as (g1 & E1 & E2).
  rewrite E in E1. injection E1 as <-.
  rewrite E2, revert_is_inverse.
  unfold rotateMapCounterClockwise.
  rewrite (rect_firstRowLength Hrect Hrows). reflexivity.
Qed.

(** On a grid of the data model the move engine returns: the forward
    rotation, the reduction of the rows and the rotation back all
    succeed. *)
Lemma move_returns (d : Direction) :
  1 <= C ->
  exists rotated back,
    rotateMapCounterClockwise g (rotateDegreeMap d) = Ok rotated
    /\ rect (rotRows (rotateDegreeMap d) R C)
            (rotCols (rotateDegreeMap d) R C) rotated
    /\ rotateMapCounterClockwise (result (moveLeft rotated))
                                 (revertDegreeMap d) = Ok back
    /\ moveMapIn2048Rule g d
       = Ok (mkMoved back (isMoved (moveLeft rotated))
                     (score (moveLeft rotated))).
Proof.
  intros Hcols.
  destruct (rotate_remaps Hrect Hrows (rotateDegreeMap d))
    as (rotated & E1 & Hr1 & _).
  pose proof (rotRows_positive (rotateDegreeMap d) Hrows Hcols) as HR1.
  destruct (rotate_remaps (moveLeft_rect Hr1) HR1 (revertDegreeMap d))
    as (back & E2 & _ & _).
  exists rotated, back. repeat (split; [assumption|]).
  unfold moveMapIn2048Rule.
  rewrite (validate_rect Hrect Hrows). cbn [bind negb].
  rewrite E1. cbn [bind]. rewrite E2. reflexivity.
Qed.

End MoveEngine.

(** ** Grids seen value-for-value *)

Section Values.

Lemma values_rect (R C : nat) (g : Map2048) :
  rect R C (values g) <-> rect R C g.
Proof.
  unfold rect, values. rewrite length_map, Forall_map.
  split; intros [HR HC]; (split; [exact HR|]);
    (eapply Forall_impl; [|exact HC]); intros row Hrow;
    cbv beta in *; rewrite length_map in *; exact Hrow.
Qed.

Lemma values_nth (g : Map2048) (r c : nat) :
  nth c (nth r (values g) []) None = optValue (cellAt g r c).
Proof.
  unfold values, cellAt.
  change (@nil (option Z)) with (List.map optValue []).
  rewrite (map_nth (List.map optValue)). apply optValue_nth.
Qed.

(** Rotation is blind to values: grids that agree value-for-value are
    rotated to grids that agree value-for-value. *)
Lemma rotate_values (R C : nat) (a b a' b' : Map2048) (d : RotateDegree) :
  rect R C a -> 1 <= R -> values a = values b ->
  rotateMapCounterClockwise a d = Ok a' ->
  rotateMapCounterClockwise b d = Ok b' ->
  values a' = values b'.
Proof.
  intros Ha HR Hv Ea Eb.
  assert (Hb : rect R C b).
  { apply values_rect. rewrite <- Hv. apply values_rect. exact Ha. }
  destruct (rotate_remaps Ha HR d) as (oa & Eoa & Hra & Hpa).
  destruct (rotate_remaps Hb HR d) as (ob & Eob & Hrb & Hpb).
  rewrite Ea in Eoa. injection Eoa as <-.
  rewrite Eb in Eob. injection Eob as <-.
  apply (rect_ext None (proj2 (values_rect _ _ _) Hra)
                       (proj2 (values_rect _ _ _) Hrb)).
  intros r c Hr Hc. rewrite !values_nth, Hpa, Hpb by assumption.
  rewrite <- !values_nth, Hv. reflexivity.
Qed.

Lemma moveLeft_not_moved (g : Map2048) :
  isMoved (moveLeft g) = false -> values (result (moveLeft g)) = values g.
Proof.
  rewrite moveLeft_isMoved, moveLeft_result. unfold values.
  induction g as [|row g IH]; [reflexivity|].
  cbn [existsb List.map]. intros H. apply orb_false_iff in H.
  destruct H as [Hrow Hg].
  rewrite (proj1 (moveRowLeft_not_moved row) Hrow), (IH Hg).
  reflexivity.
Qed.

End Values.

Lemma rotate_nil (d : RotateDegree) :
  rotateMapCounterClockwise [] d = Throw TypeError.
Proof. reflexivity. Qed.

(** What a returned move went through. *)
Lemma move_inversion (g : Map2048) (d : Direction) (r : MoveResult) :
  moveMapIn2048Rule g d = Ok r ->
  exists R C rotated,
    rect R C g /\ 1 <= R /\ 1 <= rotRows (rotateDegreeMap d) R C
    /\ rotateMapCounterClockwise g (rotateDegreeMap d) = Ok rotated
    /\ rotateMapCounterClockwise (result (moveLeft rotated))
                                 (revertDegreeMap d) = Ok (result r)
    /\ isMoved r = isMoved (moveLeft rotated)
    /\ score r = score (moveLeft rotated).
Proof.
  unfold moveMapIn2048Rule. intros H.
  destruct (validateMapIsNByM g) as [[|]|e] eqn:V; cbn [bind negb] in H;
    try discriminate.
  destruct (validate_true_rect _ V) as [HR Hrect].
  destruct (rotate_remaps Hrect HR (rotateDegreeMap d))
    as (rotated & E1 & Hr1 & _).
  rewrite E1 in H. cbn [bind] in H.
  destruct (rotateMapCounterClockwise (result (moveLeft rotated))
                                      (revertDegreeMap d))
    as [back|e] eqn:E2; cbn [bind] in H; [|discriminate].
  injection H as <-.
  exists (length g), (length (hd [] g)), rotated.
  repeat (split; [assumption|]). split; [|repeat split; assumption].
  destruct Hr1 as [Hlen _].
  destruct rotated as [|row0 rotated]; [|simpl in Hlen; lia].
  rewrite rotate_nil in E2. discriminate.
Qed.

(** C4: when a move returns with [isMoved] false, the returned grid equals
    the input grid value-for-value: it has the same shape, is empty at the
    same positions and holds the same values elsewhere. *)
Theorem unmoved_result_equals_input
  (g : Map2048) (d : Direction) (r : MoveResult) :
  moveMapIn2048Rule g d = Ok r ->
  isMoved r = false ->
  values (result r) = values g.
Proof.
  intros H Hno.
  destruct (move_inversion _ _ H)
    as (R & C & rotated & Hrect & HR & Hpos & E1 & E2 & Em & _).
  rewrite Em in Hno.
  destruct (rotate_remaps Hrect HR (rotateDegreeMap d))
    as (o & Eo & Hro & _).
  rewrite E1 in Eo. injection Eo as <-.
  apply (@rotate_values _ _ _ _ _ _ (revertDegreeMap d)
           (moveLeft_rect Hro) Hpos (moveLeft_not_moved _ Hno) E2).
  apply (rotate_back Hrect HR d Hpos E1).
Qed.

Lemma unmoved_result_equals_input_witness :
  values (result (mkMoved [[tile normal 2; tile normal 4];
                           [tile normal 4; tile normal 2]] false 0))
  = values stuck22.
Proof.
  apply (@unmoved_result_equals_input stuck22 right); reflexivity.
Defined.

(** C10: on a grid of the data model a move returns a grid whose tile values
    add up to the same sum as those of the input grid. *)
Theorem move_preserves_value_sum (g : Map2048) (d : Direction) :
  Grid g ->
  exists r, moveMapIn2048Rule g d = Ok r /\ gridSum (result r) = gridSum g.
Proof.
  intros (R & C & HR & HC & Hrect).
  destruct (move_returns Hrect HR d HC) as (rotated & back & E1 & Hr1 & E2 & E).
  eexists. split; [exact E|]. cbn [result].
  rewrite (@gridSum_rotate _ _ _ _ _ (moveLeft_rect Hr1)
             (rotRows_positive (rotateDegreeMap d) HR HC) E2).
  rewrite gridSum_moveLeft.
  apply (@gridSum_rotate _ _ _ _ _ Hrect HR E1).
Qed.

Lemma move_preserves_value_sum_witness :
  exists r, moveMapIn2048Rule sample23 up = Ok r
            /\ gridSum (result r) = gridSum sample23.
Proof.
  apply (move_preserves_value_sum up sample23_Grid).
Defined.

(** ** The move engine against its specification *)

Lemma rotateByAngle_forward (g : Map2048) (d : Direction) :
  rotateByAngle g (forwardAngle d)
  = rotateMapCounterClockwise g (rotateDegreeMap d).
Proof. destruct d; reflexivity. Qed.

Lemma rotateByAngle_inverse (g : Map2048) (d : Direction) :
  rotateByAngle g (inverseAngle d)
  = rotateMapCounterClockwise g (revertDegreeMap d).
Proof. destruct d; reflexivity. Qed.

(** The code and the specification's wording of the move agree on every
    input, errors included. *)
Lemma move_eq_moveSpec (g : Map2048) (d : Direction) :
  moveMapIn2048Rule g d = moveSpec g d.
Proof.
  unfold moveMapIn2048Rule, moveSpec.
  destruct (validateMapIsNByM g) as [[|]|e]; cbn [bind negb];
    try reflexivity.
  rewrite rotateByAngle_forward.
  destruct (rotateMapCounterClockwise g (rotateDegreeMap d))
    as [rotated|e]; cbn [bind]; [|reflexivity].
  rewrite rotateByAngle_inverse.
  change (List.map (fun r => result r) (List.map moveRowLeft rotated))
    with (result (moveLeft rotated)).
  destruct (rotateMapCounterClockwise (result (moveLeft rotated))
                                      (revertDegreeMap d))
    as [back|e]; cbn [bind]; [|reflexivity].
  rewrite moveLeft_score. reflexivity.
Qed.

(** C7: on a grid of the data model, the move equals the specification's
    composition: rotate by the forward angle of the direction (left 0, up
    90, right 180, down 270), reduce every row leftward, stack the rows and
    rotate back by the inverse angle, 360 minus the forward angle modulo 360
    (left 0, up 270, right 180, down 90); the move returns, its flag is true
    exactly when some row of the rotated grid moved and its score is the sum
    of the scores of the rows. *)
Theorem move_is_rotate_reduce_rotate_back (g : Map2048) (d : Direction) :
  Grid g ->
  moveMapIn2048Rule g d = moveSpec g d
  /\ (exists rotated back,
         rotateByAngle g (forwardAngle d) = Ok rotated
         /\ rotateByAngle
              (List.map (fun row => result (moveRowLeft row)) rotated)
              (inverseAngle d) = Ok back
         /\ moveMapIn2048Rule g d
            = Ok (mkMoved back
                    (existsb (fun row => isMoved (moveRowLeft row)) rotated)
                    (sumZ (List.map (fun row => score (moveRowLeft row))
                                    rotated)))
         /\ (existsb (fun row => isMoved (moveRowLeft row)) rotated = true
             <-> exists row, In row rotated
                             /\ isMoved (moveRowLeft row) = true))
  /\ degreeValue (rotateDegreeMap d) = forwardAngle d
  /\ degreeValue (revertDegreeMap d) = inverseAngle d
  /\ List.map forwardAngle [left; up; right; down] = [0; 90; 180; 270]%Z
  /\ List.map inverseAngle [left; up; right; down] = [0; 270; 180; 90]%Z.
Proof.
  intros (R & C & HR & HC & Hrect).
  split; [apply move_eq_moveSpec|]. split.
  - destruct (move_returns Hrect HR d HC)
      as (rotated & back & E1 & Hr1 & E2 & E).
    exists rotated, back.
    rewrite rotateByAngle_forward, rotateByAngle_inverse.
    rewrite <- moveLeft_result, <- moveLeft_isMoved.
    rewrite <- (map_map moveRowLeft (fun r => score r)), <- moveLeft_score.
    repeat (split; [assumption|]).
    rewrite moveLeft_isMoved. apply existsb_exists.
  - repeat split; destruct d; reflexivity.
Qed.

Lemma move_is_rotate_reduce_rotate_back_witness :
  moveMapIn2048Rule sample23 up = moveSpec sample23 up
  /\ (exists rotated back,
         rotateByAngle sample23 (forwardAngle up) = Ok rotated
         /\ rotateByAngle
              (List.map (fun row => result (moveRowLeft row)) rotated)
              (inverseAngle up) = Ok back
         /\ moveMapIn2048Rule sample23 up
            = Ok (mkMoved back
                    (existsb (fun row => isMoved (moveRowLeft row)) rotated)
                    (sumZ (List.map (fun row => score (moveRowLeft row))
                                    rotated)))
         /\ (existsb (fun row => isMoved (moveRowLeft row)) rotated = true
             <-> exists row, In row rotated
                             /\ isMoved (moveRowLeft row) = true))
  /\ degreeValue (rotateDegreeMap up) = forwardAngle up
  /\ degreeValue (revertDegreeMap up) = inverseAngle up
  /\ List.map forwardAngle [left; up; right; down] = [0; 90; 180; 270]%Z
  /\ List.map inverseAngle [left; up; right; down] = [0; 270; 180; 90]%Z.
Proof.
  apply (move_is_rotate_reduce_rotate_back up sample23_Grid).
Defined.

(** ** The spawner *)

Section Spawner.

Lemma index2_in_range {A : Type} (m : list (list A)) (i j : nat)
      (row : list A) :
  nth_error m i = Some row ->
  index2 m i j = Ok (nth_error row j).
Proof. intros H. unfold index2. rewrite H. reflexivity. Qed.

Lemma is4x4_row {A : Type} (m : list (list A)) (i : nat) :
  is4x4 m -> i < 4 ->
  nth_error m i = Some (nth i m []) /\ length (nth i m []) = 4.
Proof.
  intros [HR HC] Hi. split.
  - apply nth_error_nth'. lia.
  - rewrite Forall_forall in HC. apply HC, nth_In. lia.
Qed.

Lemma is4x4_index2 {A : Type} (d : A) (m : list (list A)) (i j : nat) :
  is4x4 m -> i < 4 -> j < 4 ->
  index2 m i j = Ok (Some (nth j (nth i m []) d)).
Proof.
  intros Hm Hi Hj. destruct (is4x4_row Hm Hi) as [Hrow Hlen].
  rewrite (@index2_in_range A m i j _ Hrow). f_equal.
  apply nth_error_nth'. lia.
Qed.

Variable g : Map2048.
Hypothesis H44 : is4x4 g.

Lemma inner_loop_collects (i : nat) (js : list nat) :
  i < 4 -> (forall j, In j js -> j < 4) ->
  forall acc,
    forEachM (fun acc j =>
                c <- index2 g i j ;;
                Ok (if isNull c then acc ++ [(i, j)] else acc))
             js acc
    = Ok (acc ++ filter (isEmptyAt g) (List.map (pair i) js)).
Proof.
  intros Hi. induction js as [|j js IH]; intros Hjs acc.
  - cbn. rewrite app_nil_r. reflexivity.
  - cbn [forEachM].
    rewrite (is4x4_index2 (None : Cell) H44 Hi (Hjs j (or_introl eq_refl))).
    cbn [bind List.map filter].
    assert (Hp : isEmptyAt g (i, j) = isNull (Some (cellAt g i j)))
      by (unfold isEmptyAt; cbn [fst snd]; destruct (cellAt g i j);
          reflexivity).
    rewrite Hp. change (nth j (nth i g []) None) with (cellAt g i j).
    rewrite IH by (intros; apply Hjs; right; assumption).
    destruct (cellAt g i j); cbn [isNull].
    + reflexivity.
    + rewrite <- app_assoc. reflexivity.
Qed.

Lemma outer_loop_collects (rows : list nat) :
  (forall i, In i rows -> i < 4) ->
  forall acc,
    forEachM (fun acc i =>
                forEachM (fun acc j =>
                            c <- index2 g i j ;;
                            Ok (if isNull c then acc ++ [(i, j)] else acc))
                         (seq 0 4) acc)
             rows acc
    = Ok (acc ++ filter (isEmptyAt g) (list_prod rows (seq 0 4))).
Proof.
  induction rows as [|i rows IH]; intros Hrows acc.
  - cbn. rewrite app_nil_r. reflexivity.
  - cbn [forEachM].
    rewrite inner_loop_collects;
      [| apply Hrows; left; reflexivity
       | intros j Hj; apply in_seq in Hj; lia ].
    cbn [bind]. rewrite IH by (intros; apply Hrows; right; assumption).
    cbn [list_prod]. rewrite filter_app, app_assoc. reflexivity.
Qed.

(** The scan of the board collects exactly its empty positions. *)
Lemma collectNullPositions_spec :
  collectNullPositions g = Ok (emptyPositions g).
Proof.
  unfold collectNullPositions.
  rewrite outer_loop_collects; [reflexivity|].
  intros i Hi. apply in_seq in Hi. lia.
Qed.

Lemma emptyPositions_In (i j : nat) :
  In (i, j) (emptyPositions g) <-> i < 4 /\ j < 4 /\ cellAt g i j = None.
Proof.
  unfold emptyPositions. rewrite filter_In, in_prod_iff, !in_seq.
  unfold isEmptyAt. cbn [fst snd].
  destruct (cellAt g i j); split; intros H; try discriminate (proj2 H).
  - destruct H as (_ & _ & H). discriminate H.
  - repeat split; lia.
  - repeat split; lia.
Qed.

End Spawner.

Lemma getRandomInt_range (u : Q) (n : nat) :
  (0 <= u)%Q -> (u < 1)%Q -> 0 < n ->
  (0 <= getRandomInt u n < Z.of_nat n)%Z.
Proof.
  intros H0 H1 Hn. unfold getRandomInt.
  assert (Hpos : (0 < inject_Z (Z.of_nat n))%Q).
  { change (inject_Z 0 < inject_Z (Z.of_nat n))%Q.
    rewrite <- Zlt_Qlt. lia. }
  split.
  - change 0%Z with (Qfloor 0). apply Qfloor_resp_le.
    apply Qmult_le_0_compat; [exact H0 | apply Qlt_le_weak; exact Hpos].
  - rewrite Zlt_Qlt.
    apply Qle_lt_trans with (y := (u * inject_Z (Z.of_nat n))%Q).
    + apply Qfloor_le.
    + rewrite <- (Qmult_1_l (inject_Z (Z.of_nat n))) at 2.
      apply Qmult_lt_compat_r; assumption.
Qed.

Lemma getRandomInt_zero (u : Q) : getRandomInt u 0 = 0%Z.
Proof.
  unfold getRandomInt. cbn [Z.of_nat].
  assert (E : (u * inject_Z 0 == 0)%Q) by apply Qmult_0_r.
  rewrite E. reflexivity.
Qed.

Section ReplaceAt.

Context {A : Type}.

Lemma replaceAt_length (l : list A) :
  forall i v, length (replaceAt l i v) = length l.
Proof.
  induction l as [|x l IH]; intros [|i] v; simpl; try reflexivity.
  rewrite IH. reflexivity.
Qed.

Lemma replaceAt_nth_same (d : A) (l : list A) :
  forall i v, i < length l -> nth i (replaceAt l i v) d = v.
Proof.
  induction l as [|x l IH]; intros [|i] v Hi; simpl in *; try lia.
  - reflexivity.
  - apply IH. lia.
Qed.

Lemma replaceAt_nth_other (d : A) (l : list A) :
  forall i k v, k <> i -> nth k (replaceAt l i v) d = nth k l d.
Proof.
  induction l as [|x l IH]; intros [|i] [|k] v Hne; simpl;
    try reflexivity; try congruence.
  apply IH. congruence.
Qed.

End ReplaceAt.

(** The value drawn by the spawner. *)
Lemma spawned_value (u1 : Q) :
  let v := if Qlt_le_dec u1 (6 # 10)%Q then 2%Z else 4%Z in
  v = 2%Z \/ v = 4%Z.
Proof. cbv zeta. destruct (Qlt_le_dec u1 (6 # 10)%Q); [left | right]; reflexivity. Qed.

(** On a 4x4 board with an empty cell the spawner returns the board with one
    of its empty positions replaced by a new tile. *)
Lemma addNewCell_returns (u1 u2 : Q) (g : Map2048) :
  is4x4 g -> (0 <= u2)%Q -> (u2 < 1)%Q -> emptyPositions g <> [] ->
  exists i j,
    In (i, j) (emptyPositions g)
    /\ addNewCell u1 u2 g
       = Ok (replaceAt g i
               (replaceAt (nth i g []) j
                  (Some (mkCell new
                     (if Qlt_le_dec u1 (6 # 10)%Q then 2%Z else 4%Z))))).
Proof.
  intros H44 H0 H1 Hne. unfold addNewCell.
  rewrite (collectNullPositions_spec H44). cbn [bind].
  assert (Hlen : 0 < length (emptyPositions g))
    by (destruct (emptyPositions g); [congruence | simpl; lia]).
  pose proof (getRandomInt_range H0 H1 Hlen) as [Hlo Hhi].
  destruct (getRandomInt u2 (length (emptyPositions g)) <? 0)%Z eqn:Eneg;
    [apply Z.ltb_lt in Eneg; lia|].
  destruct (nth_error (emptyPositions g)
              (Z.to_nat (getRandomInt u2 (length (emptyPositions g)))))
    as [[i j]|] eqn:Enth.
  - exists i, j. pose proof (nth_error_In _ _ Enth) as Hin.
    split; [exact Hin|]. cbn [bind].
    apply (emptyPositions_In g) in Hin. destruct Hin as (Hi & Hj & _).
    destruct (is4x4_row H44 Hi) as [Hrow Hrowlen].
    rewrite Hrow. cbn [bind]. unfold arrayWith.
    rewrite Hrowlen. destruct H44 as [HR _]. rewrite HR.
    rewrite (proj2 (Nat.ltb_lt j 4) Hj), (proj2 (Nat.ltb_lt i 4) Hi).
    reflexivity.
  - apply nth_error_None in Enth. lia.
Qed.

(** C8: on a 4x4 board with at least one empty cell, the spawner returns a
    4x4 board that differs from the input at exactly one position; that
    position was empty and now holds a tile of state [new] and value 2 or
    4; every other position holds what it held.  ([Array.prototype.with]
    builds a copy: the input board is left as it was.) *)
Theorem addNewCell_changes_one_empty_cell (u1 u2 : Q) (g : Map2048) :
  is4x4 g -> (0 <= u2)%Q -> (u2 < 1)%Q ->
  (exists i j, i < 4 /\ j < 4 /\ cellAt g i j = None) ->
  exists g' i j v,
    addNewCell u1 u2 g = Ok g'
    /\ is4x4 g'
    /\ i < 4 /\ j < 4
    /\ cellAt g i j = None
    /\ cellAt g' i j = Some (mkCell new v)
    /\ (v = 2 \/ v = 4)%Z
    /\ (forall i' j', (i', j') <> (i, j) -> cellAt g' i' j' = cellAt g i' j').
Proof.
  intros H44 H0 H1 (i0 & j0 & Hi0 & Hj0 & Hempty).
  assert (Hne : emptyPositions g <> []).
  { intros E. assert (Hin : In (i0, j0) (emptyPositions g))
      by (apply emptyPositions_In; auto).
    rewrite E in Hin. exact Hin. }
  destruct (addNewCell_returns u1 H44 H0 H1 Hne) as (i & j & Hin & E).
  apply (emptyPositions_In g) in Hin. destruct Hin as (Hi & Hj & Hnone).
  destruct (is4x4_row H44 Hi) as [_ Hrowlen].
  assert (HR : length g = 4) by (destruct H44; assumption).
  eexists. exists i, j. eexists. split; [exact E|].
  split; [|split; [exact Hi|split; [exact Hj|split; [exact Hnone|split;
          [|split; [apply spawned_value|]]]]]].
  - split; [rewrite replaceAt_length; exact HR|].
    apply Forall_nth. intros k d Hk. rewrite replaceAt_length in Hk.
    rewrite (nth_indep _ d []) by (rewrite replaceAt_length; exact Hk).
    destruct (Nat.eq_dec k i) as [->|Hki].
    + rewrite replaceAt_nth_same by lia.
      rewrite replaceAt_length. exact Hrowlen.
    + rewrite replaceAt_nth_other by exact Hki.
      destruct H44 as [_ HC]. rewrite Forall_forall in HC.
      apply HC, nth_In. exact Hk.
  - unfold cellAt. rewrite replaceAt_nth_same by lia.
    apply replaceAt_nth_same. lia.
  - intros i' j' Hneq. unfold cellAt.
    destruct (Nat.eq_dec i' i) as [->|Hi'].
    + rewrite replaceAt_nth_same by lia.
      apply replaceAt_nth_other. congruence.
    + rewrite replaceAt_nth_other by exact Hi'. reflexivity.
Qed.

Lemma holes44_is4x4 : is4x4 holes44.
Proof. split; [reflexivity | repeat constructor]. Qed.

Lemma addNewCell_changes_one_empty_cell_witness :
  exists g' i j v,
    addNewCell (7 # 10) (1 # 2) holes44 = Ok g'
    /\ is4x4 g'
    /\ i < 4 /\ j < 4
    /\ cellAt holes44 i j = None
    /\ cellAt g' i j = Some (mkCell new v)
    /\ (v = 2 \/ v = 4)%Z
    /\ (forall i' j', (i', j') <> (i, j) ->
          cellAt g' i' j' = cellAt holes44 i' j').
Proof.
  apply (@addNewCell_changes_one_empty_cell (7 # 10) (1 # 2) holes44).
  - exact holes44_is4x4.
  - discriminate.
  - reflexivity.
  - exists 0, 1. repeat split; lia.
Defined.

(** ** The terminal detector *)

Section TerminalDetector.

Lemma forReturn_decide {A : Type} (p : A -> bool)
      (body : A -> completion (option bool)) (xs : list A) :
  (forall x, In x xs -> body x = Ok (if p x then Some false else None)) ->
  forReturn body xs = Ok (if existsb p xs then Some false else None).
Proof.
  induction xs as [|x xs IH]; intros Hbody; [reflexivity|].
  cbn [forReturn existsb]. rewrite (Hbody x (or_introl eq_refl)).
  cbn [bind]. destruct (p x); cbn [orb]; [reflexivity|].
  apply IH. intros y Hy. apply Hbody. right. exact Hy.
Qed.

Variable m : HeapMap2048.
Hypothesis H44 : is4x4 m.

Lemma heap_index2 (i j : nat) :
  i < 4 -> j < 4 -> index2 m i j = Ok (Some (heapCellAt m i j)).
Proof. intros Hi Hj. apply (is4x4_index2 (None : HeapCell) H44 Hi Hj). Qed.

Lemma first_scan :
  forReturn (fun i =>
    forReturn (fun j =>
      c <- index2 m i j ;;
      if isNull c then Ok (Some false) else Ok None)
      (seq 0 4))
    (seq 0 4)
  = Ok (if hasNull m then Some false else None).
Proof.
  unfold hasNull.
  apply (forReturn_decide
           (fun i => existsb (fun j => heapIsEmpty (heapCellAt m i j))
                             (seq 0 4))).
  intros i Hi. apply in_seq in Hi.
  apply (forReturn_decide (fun j => heapIsEmpty (heapCellAt m i j))).
  intros j Hj. apply in_seq in Hj.
  rewrite heap_index2 by lia. cbn [bind].
  destruct (heapCellAt m i j); reflexivity.
Qed.

Lemma second_scan :
  forReturn (fun i =>
    forReturn (fun j =>
      currentCell <- index2 m i j ;;
      sameRight <- (if j <? 3
                    then (n <- index2 m i (j + 1) ;;
                          Ok (strictEq currentCell n))
                    else Ok false) ;;
      if sameRight then Ok (Some false)
      else
        sameBelow <- (if i <? 3
                      then (n <- index2 m (i + 1) j ;;
                            Ok (strictEq currentCell n))
                      else Ok false) ;;
        if sameBelow then Ok (Some false) else Ok None)
      (seq 0 4))
    (seq 0 4)
  = Ok (if neighboursAgree sameObject m then Some false else None).
Proof.
  unfold neighboursAgree.
  apply (forReturn_decide
           (fun i => existsb (fun j =>
              ((j <? 3) && sameObject (heapCellAt m i j)
                                      (heapCellAt m i (j + 1)))
              || ((i <? 3) && sameObject (heapCellAt m i j)
                                         (heapCellAt m (i + 1) j)))
              (seq 0 4))).
  intros i Hi. apply in_seq in Hi.
  apply (forReturn_decide
           (fun j =>
              ((j <? 3) && sameObject (heapCellAt m i j)
                                      (heapCellAt m i (j + 1)))
              || ((i <? 3) && sameObject (heapCellAt m i j)
                                         (heapCellAt m (i + 1) j)))).
  intros j Hj. apply in_seq in Hj.
  rewrite heap_index2 by lia. cbn [bind].
  destruct (j <? 3) eqn:Ej.
  - apply Nat.ltb_lt in Ej. rewrite heap_index2 by lia. cbn [bind andb].
    fold (sameObject (heapCellAt m i j) (heapCellAt m i (j + 1))).
    destruct (sameObject (heapCellAt m i j) (heapCellAt m i (j + 1)));
      cbn [orb]; [reflexivity|].
    destruct (i <? 3) eqn:Ei.
    + apply Nat.ltb_lt in Ei. rewrite heap_index2 by lia. cbn [bind andb].
      fold (sameObject (heapCellAt m i j) (heapCellAt m (i + 1) j)).
      destruct (sameObject (heapCellAt m i j) (heapCellAt m (i + 1) j));
        reflexivity.
    + reflexivity.
  - cbn [bind andb orb].
    destruct (i <? 3) eqn:Ei.
    + apply Nat.ltb_lt in Ei. rewrite heap_index2 by lia. cbn [bind andb].
      fold (sameObject (heapCellAt m i j) (heapCellAt m (i + 1) j)).
      destruct (sameObject (heapCellAt m i j) (heapCellAt m (i + 1) j));
        reflexivity.
    + reflexivity.
Qed.

(** What the terminal detector computes on a 4x4 board: it answers (it
    never throws), and the answer is true exactly when no cell is empty
    and no two neighbouring positions hold the same object. *)
Lemma userLoses_compares_references :
  userLoses m
  = Ok (negb (hasNull m) && negb (neighboursAgree sameObject m)).
Proof.
  unfold userLoses. rewrite first_scan. cbn [bind].
  destruct (hasNull m); [reflexivity|].
  rewrite second_scan. cbn [bind].
  destruct (neighboursAgree sameObject m); reflexivity.
Qed.

End TerminalDetector.

Lemma is4x4_shape {A : Type} (m : list (list A)) :
  is4x4 m ->
  exists c00 c01 c02 c03 c10 c11 c12 c13 c20 c21 c22 c23 c30 c31 c32 c33,
    m = [[c00; c01; c02; c03]; [c10; c11; c12; c13];
         [c20; c21; c22; c23]; [c30; c31; c32; c33]].
Proof.
  intros [HR HC].
  destruct m as [|r0 [|r1 [|r2 [|r3 [|r4 m]]]]]; try discriminate HR.
  inversion HC as [|? ? H0 HC1]; subst.
  inversion HC1 as [|? ? H1 HC2]; subst.
  inversion HC2 as [|? ? H2 HC3]; subst.
  inversion HC3 as [|? ? H3 _]; subst.
  destruct r0 as [|? [|? [|? [|? [|? ?]]]]]; try discriminate H0.
  destruct r1 as [|? [|? [|? [|? [|? ?]]]]]; try discriminate H1.
  destruct r2 as [|? [|? [|? [|? [|? ?]]]]]; try discriminate H2.
  destruct r3 as [|? [|? [|? [|? [|? ?]]]]]; try discriminate H3.
  repeat eexists.
Qed.

(** Every board the game builds is made of freshly allocated objects; on
    such a board, once it is full, the detector answers true whatever the
    values of the tiles. *)
Lemma userLoses_full_distinct (m : HeapMap2048) :
  is4x4 m -> hasNull m = false -> NoDup (locations m) ->
  userLoses m = Ok true.
Proof.
  intros H44 Hfull Hnd. rewrite (userLoses_compares_references H44), Hfull.
  cbn [negb andb]. f_equal. apply negb_true_iff.
  destruct (is4x4_shape H44)
    as (c00 & c01 & c02 & c03 & c10 & c11 & c12 & c13
        & c20 & c21 & c22 & c23 & c30 & c31 & c32 & c33 & ->).
  clear H44. unfold hasNull in Hfull. cbn in Hfull.
  repeat match type of Hfull with
         | context [heapIsEmpty ?c] =>
             destruct c as [?x|]; cbn in Hfull; try discriminate Hfull
         end.
  clear Hfull. cbn in Hnd.
  repeat match goal with
         | H : NoDup (_ :: _) |- _ =>
             let Hn := fresh "Hn" in
             let Hr := fresh "Hr" in
             inversion H as [|? ? Hn Hr]; clear H; subst; cbn [In] in Hn
         end.
  cbn.
  repeat match goal with
         | |- context [?a =? ?b] =>
             replace (a =? b) with false
               by (symmetry; apply Nat.eqb_neq; intros E;
                   first [ distinct_by E | symmetry in E; distinct_by E ])
         end.
  reflexivity.
Qed.

(** C1, where the code departs from the claim: [mergeable44] is a full 4x4
    board of sixteen distinct objects whose two leftmost tiles of the top
    row both hold 2.  The specification's detector answers false (a move to
    the left merges them), whereas [userLoses] answers true, because it
    compares the two cell objects with [===] and not their values. *)
Theorem userLoses_true_despite_equal_neighbours :
  is4x4 mergeable44
  /\ NoDup (locations mergeable44)
  /\ hasNull mergeable44 = false
  /\ equalValue (heapCellAt mergeable44 0 0) (heapCellAt mergeable44 0 1)
     = true
  /\ isTerminalSpec mergeable44 = false
  /\ (exists r, moveMapIn2048Rule (contents mergeable44) left = Ok r
                /\ isMoved r = true)
  /\ userLoses mergeable44 = Ok true.
Proof.
  split; [split; [reflexivity | repeat constructor]|].
  split.
  { cbn. repeat (constructor; [cbn [In]; intros H;
                               repeat (destruct H as [H|H]; try discriminate H);
                               exact H|]).
    constructor. }
  split; [reflexivity|]. split; [reflexivity|]. split; [reflexivity|].
  split; [eexists; split; reflexivity | reflexivity].
Qed.

(** ** Errors *)

Lemma move_throws_NotNByM (g : Map2048) (d : Direction) :
  g <> [] ->
  (exists row, In row g /\ length row <> length (hd [] g)) ->
  moveMapIn2048Rule g d = Throw NotNByM.
Proof.
  intros Hne Hrag. apply (validate_false_iff Hne) in Hrag.
  unfold moveMapIn2048Rule. rewrite Hrag. reflexivity.
Qed.

Lemma move_raises_iff (g : Map2048) (d : Direction) :
  g <> [] -> hd [] g <> [] ->
  raises (moveMapIn2048Rule g d)
  <-> exists row, In row g /\ length row <> length (hd [] g).
Proof.
  intros Hne Hhd. split.
  - intros [e He].
    destruct (validateMapIsNByM g) as [[|]|e'] eqn:V.
    + exfalso. destruct (validate_true_rect _ V) as [HR Hrect].
      assert (HC : 1 <= length (hd [] g))
        by (destruct (hd [] g); [congruence | simpl; lia]).
      destruct (move_returns Hrect HR d HC) as (? & ? & _ & _ & _ & E).
      congruence.
    + apply (validate_false_iff Hne). exact V.
    + exfalso. rewrite (validate_outcome Hne) in V. discriminate V.
  - intros Hrag. exists NotNByM. apply move_throws_NotNByM; assumption.
Qed.

Lemma addNewCell_full_throws (u1 u2 : Q) (g : Map2048) :
  is4x4 g ->
  (forall i j, i < 4 -> j < 4 -> cellAt g i j <> None) ->
  addNewCell u1 u2 g = Throw TypeError.
Proof.
  intros H44 Hfull.
  assert (Hnil : emptyPositions g = []).
  { destruct (emptyPositions g) as [|[i j] l] eqn:E; [reflexivity|].
    exfalso.
    assert (Hin : In (i, j) (emptyPositions g)) by (rewrite E; left; reflexivity).
    apply emptyPositions_In in Hin. destruct Hin as (Hi & Hj & Hnone).
    exact (Hfull i j Hi Hj Hnone). }
  unfold addNewCell. rewrite (collectNullPositions_spec H44). cbn [bind].
  rewrite Hnil. cbn [length]. rewrite getRandomInt_zero. reflexivity.
Qed.

(** C9: a move raises an error exactly when its input is not rectangular
    (some row's length differs from the first row's), and the error is then
    "Map is not N by M"; the spawner raises an error on a 4x4 board without
    an empty cell.  On valid inputs (a grid of the data model for the move,
    a 4x4 board with an empty cell for the spawner) neither raises, and game
    events are ordinary results: a move that moves nothing returns with
    [isMoved] false, and the terminal detector returns a boolean on every
    4x4 board. *)
Theorem errors_only_on_precondition_violation :
  (forall g d, g <> [] -> hd [] g <> [] ->
     (raises (moveMapIn2048Rule g d)
      <-> exists row, In row g /\ length row <> length (hd [] g)))
  /\ (forall g d, g <> [] ->
        (exists row, In row g /\ length row <> length (hd [] g)) ->
        moveMapIn2048Rule g d = Throw NotNByM)
  /\ (forall u1 u2 g, is4x4 g ->
        (forall i j, i < 4 -> j < 4 -> cellAt g i j <> None) ->
        raises (addNewCell u1 u2 g))
  /\ (forall u1 u2 g, is4x4 g -> (0 <= u2)%Q -> (u2 < 1)%Q ->
        (exists i j, i < 4 /\ j < 4 /\ cellAt g i j = None) ->
        exists g', addNewCell u1 u2 g = Ok g')
  /\ (forall g d, Grid g -> exists r, moveMapIn2048Rule g d = Ok r)
  /\ moveMapIn2048Rule stuck22 right
     = Ok (mkMoved [[tile normal 2; tile normal 4];
                    [tile normal 4; tile normal 2]] false 0)
  /\ (forall m, is4x4 m -> exists b, userLoses m = Ok b).
Proof.
  split; [exact move_raises_iff|].
  split; [exact move_throws_NotNByM|].
  split; [intros u1 u2 g H44 Hfull; exists TypeError;
          apply addNewCell_full_throws; assumption|].
  split.
  { intros u1 u2 g H44 H0 H1 (i & j & Hi & Hj & Hnone).
    assert (Hne : emptyPositions g <> []).
    { intros E. assert (Hin : In (i, j) (emptyPositions g))
        by (apply emptyPositions_In; auto).
      rewrite E in Hin. exact Hin. }
    destruct (addNewCell_returns u1 H44 H0 H1 Hne) as (? & ? & _ & E).
    eexists. exact E. }
  split.
  { intros g d (R & C & HR & HC & Hrect).
    destruct (move_returns Hrect HR d HC) as (? & ? & _ & _ & _ & E).
    eexists. exact E. }
  split; [reflexivity|].
  intros m H44. eexists. apply (userLoses_compares_references H44).
Qed.

Lemma full44_is4x4 : is4x4 full44.
Proof. split; [reflexivity | repeat constructor]. Qed.

Lemma full44_no_empty (i j : nat) :
  i < 4 -> j < 4 -> cellAt full44 i j <> None.
Proof.
  intros Hi Hj.
  do 4 (destruct i as [|i];
        [do 4 (destruct j as [|j]; [discriminate|]); lia|]).
  lia.
Qed.

Lemma mergeable44_is4x4 : is4x4 mergeable44.
Proof. split; [reflexivity | repeat constructor]. Qed.

Lemma errors_only_on_precondition_violation_witness :
  raises (moveMapIn2048Rule ragged up)
  /\ moveMapIn2048Rule ragged up = Throw NotNByM
  /\ raises (addNewCell (1 # 2) (1 # 2) full44)
  /\ (exists g', addNewCell (1 # 2) (1 # 2) holes44 = Ok g')
  /\ (exists r, moveMapIn2048Rule sample23 down = Ok r)
  /\ (exists b, userLoses mergeable44 = Ok b).
Proof.
  destruct errors_only_on_precondition_violation
    as (Hiff & Hthrow & Hfull & Hspawn & Hmove & _ & Hterm).
  assert (Hrag : exists row, In row ragged /\ length row <> length (hd [] ragged)).
  { exists [tile normal 2; tile normal 4]. split.
    - right. left. reflexivity.
    - discriminate. }
  split; [apply Hiff; [discriminate | discriminate | exact Hrag]|].
  split; [apply Hthrow; [discriminate | exact Hrag]|].
  split; [apply Hfull; [exact full44_is4x4 | exact full44_no_empty]|].
  split.
  { apply Hspawn.
    - exact holes44_is4x4.
    - discriminate.
    - reflexivity.
    - exists 0, 1. repeat split; lia. }
  split; [apply Hmove; exact sample23_Grid|].
  apply Hterm. exact mergeable44_is4x4.
Defined.

(** ** Outside the data model

    The data model asks for at least one row and one column.  The code does
    not return on a grid without rows, nor on a grid of empty rows moved up
    or down: the rotation then reads [map[0].length] on an empty array. *)
Lemma move_on_degenerate_grids :
  (forall d, moveMapIn2048Rule [] d = Throw TypeError)
  /\ moveMapIn2048Rule [[]; []] up = Throw TypeError
  /\ moveMapIn2048Rule [[]; []] down = Throw TypeError
  /\ moveMapIn2048Rule [[]; []] left = Ok (mkMoved [[]; []] false 0)
  /\ moveMapIn2048Rule [[]; []] right = Ok (mkMoved [[]; []] false 0).
Proof. repeat split. Qed.

(** * Further properties of the code *)

(** ** Rotation rearranges the cells *)

Lemma Cell_eq_dec (a b : Cell) : {a = b} + {a <> b}.
Proof. repeat decide equality. Qed.

Lemma rect_mapGrid (h : Cell -> Cell) (R C : nat) (g : Map2048) :
  rect R C g -> rect R C (mapGrid h g).
Proof.
  intros [HR HC]. unfold mapGrid. split.
  - rewrite length_map. exact HR.
  - apply Forall_map. eapply Forall_impl; [|exact HC].
    intros row Hrow. cbv beta. rewrite length_map. exact Hrow.
Qed.

Lemma cellAt_mapGrid (h : Cell -> Cell) (R C : nat) (g : Map2048) (r c : nat) :
  rect R C g -> r < R -> c < C ->
  cellAt (mapGrid h g) r c = h (cellAt g r c).
Proof.
  intros Hrect Hr Hc. unfold cellAt, mapGrid.
  change (@nil Cell) with (List.map h []) at 1.
  rewrite (map_nth (List.map h)).
  rewrite (nth_indep _ None (h None))
    by (rewrite length_map, (rect_row_length Hrect Hr); exact Hc).
  apply (map_nth h).
Qed.

(** Rotation is blind to the cells it moves: it commutes with every
    cell-wise transformation. *)
Lemma rotate_mapGrid (h : Cell -> Cell) (R C : nat) (g g' : Map2048)
      (d : RotateDegree) :
  rect R C g -> 1 <= R ->
  rotateMapCounterClockwise g d = Ok g' ->
  rotateMapCounterClockwise (mapGrid h g) d = Ok (mapGrid h g').
Proof.
  intros Hrect HR E.
  destruct (rotate_remaps Hrect HR d) as (o & Eo & Hro & Hpo).
  rewrite E in Eo. injection Eo as <-.
  destruct (rotate_remaps (rect_mapGrid h Hrect) HR d)
    as (o' & Eo' & Hro' & Hpo').
  rewrite Eo'. f_equal.
  apply (rect_ext None Hro' (rect_mapGrid h Hro)).
  intros r c Hr Hc.
  change (cellAt o' r c = cellAt (mapGrid h g') r c).
  rewrite Hpo' by assumption.
  rewrite (cellAt_mapGrid h Hro Hr Hc), Hpo by assumption.
  apply (cellAt_mapGrid h Hrect); destruct d; cbn in *; lia.
Qed.

Lemma sumZ_app (l1 l2 : list Z) : sumZ (l1 ++ l2) = (sumZ l1 + sumZ l2)%Z.
Proof.
  induction l1 as [|x l1 IH]; cbn [app sumZ]; [reflexivity|].
  rewrite IH. lia.
Qed.

Lemma gridSum_weigh (f : Cell -> Z) (g : Map2048) :
  gridSum (mapGrid (weigh f) g) = sumZ (List.map f (cells g)).
Proof.
  unfold cells, mapGrid.
  induction g as [|row g IH]; [reflexivity|].
  cbn [List.map gridSum fold_right concat].
  fold (gridSum (List.map (List.map (weigh f)) g)).
  rewrite IH, map_app, sumZ_app. f_equal.
  clear IH. induction row as [|c row IH]; [reflexivity|].
  cbn [List.map rowSum fold_right sumZ]. fold (rowSum (List.map (weigh f) row)).
  rewrite IH. reflexivity.
Qed.

(** Any weighted count of the cells is the same before and after a
    rotation. *)
Lemma rotate_weighted_sum (f : Cell -> Z) (R C : nat) (g g' : Map2048)
      (d : RotateDegree) :
  rect R C g -> 1 <= R ->
  rotateMapCounterClockwise g d = Ok g' ->
  sumZ (List.map f (cells g')) = sumZ (List.map f (cells g)).
Proof.
  intros Hrect HR E. rewrite <- !gridSum_weigh.
  apply (@gridSum_rotate R C _ _ d (rect_mapGrid (weigh f) Hrect) HR).
  apply (@rotate_mapGrid (weigh f) _ _ _ _ _ Hrect HR E).
Qed.

Lemma count_occ_sumZ (l : list Cell) (x : Cell) :
  Z.of_nat (count_occ Cell_eq_dec l x)
  = sumZ (List.map (fun c => if Cell_eq_dec c x then 1%Z else 0%Z) l).
Proof.
  induction l as [|c l IH]; [reflexivity|].
  cbn [count_occ List.map sumZ]. rewrite <- IH.
  destruct (Cell_eq_dec c x); lia.
Qed.

(** The cells of a rotated grid are the cells of the grid in another
    order. *)
Lemma rotate_Permutation (R C : nat) (g g' : Map2048) (d : RotateDegree) :
  rect R C g -> 1 <= R ->
  rotateMapCounterClockwise g d = Ok g' ->
  Permutation (cells g') (cells g).
Proof.
  intros Hrect HR E. apply (Permutation_count_occ Cell_eq_dec).
  intros x. apply Nat2Z.inj. rewrite !count_occ_sumZ.
  apply (@rotate_weighted_sum _ _ _ _ _ _ Hrect HR E).
Qed.

(** ** What a move keeps *)

Lemma rect_unique {A : Type} (R C R' C' : nat) (g : list (list A)) :
  rect R C g -> rect R' C' g -> 1 <= R -> R = R' /\ C = C'.
Proof.
  intros [HR HC] [HR' HC'] H1. split; [congruence|].
  destruct g as [|row g]; [simpl in HR; lia|].
  inversion HC; inversion HC'; congruence.
Qed.

(** The stages of a move that returned, with their shapes. *)
Lemma move_chain (g : Map2048) (d : Direction) (r : MoveResult) :
  moveMapIn2048Rule g d = Ok r ->
  exists R C rotated,
    rect R C g /\ 1 <= R
    /\ rect (rotRows (rotateDegreeMap d) R C)
            (rotCols (rotateDegreeMap d) R C) rotated
    /\ 1 <= rotRows (rotateDegreeMap d) R C
    /\ rotateMapCounterClockwise g (rotateDegreeMap d) = Ok rotated
    /\ rotateMapCounterClockwise (result (moveLeft rotated))
                                 (revertDegreeMap d) = Ok (result r)
    /\ rect R C (result r)
    /\ isMoved r = isMoved (moveLeft rotated)
    /\ score r = score (moveLeft rotated).
Proof.
  intros H.
  destruct (move_inversion _ _ H)
    as (R & C & rotated & Hrect & HR & Hpos & E1 & E2 & Em & Es).
  destruct (rotate_remaps Hrect HR (rotateDegreeMap d)) as (o & Eo & Hro & _).
  rewrite E1 in Eo. injection Eo as <-.
  destruct (rotate_remaps (moveLeft_rect Hro) Hpos (revertDegreeMap d))
    as (o & Eo & Hback & _).
  rewrite E2 in Eo. injection Eo as <-.
  exists R, C, rotated. repeat (split; [assumption|]).
  split; [|split; assumption].
  destruct d; exact Hback.
Qed.

Lemma pairs_ind (P : list CellObject -> Prop) :
  P [] ->
  (forall a, P [a]) ->
  (forall a b rest, P rest -> P (b :: rest) -> P (a :: b :: rest)) ->
  forall cs, P cs.
Proof.
  intros Hnil Hone Hstep cs.
  assert (H : P cs /\ forall a, P (a :: cs)).
  { induction cs as [|b rest [IH1 IH2]].
    - split; [exact Hnil | exact Hone].
    - split; [apply IH2|]. intros a. apply Hstep; [exact IH1 | apply IH2]. }
  exact (proj1 H).
Qed.

Lemma mergePairs_two (a b : CellObject) (rest : list CellObject) :
  mergePairs (a :: b :: rest)
  = if (value a =? value b)%Z
    then mkCell merged (2 * value a) :: mergePairs rest
    else mkCell normal (value a) :: mergePairs (b :: rest).
Proof. reflexivity. Qed.

Lemma mergeScore_two (a b : CellObject) (rest : list CellObject) :
  mergeScore (a :: b :: rest)
  = if (value a =? value b)%Z
    then (2 * value a + mergeScore rest)%Z
    else mergeScore (b :: rest).
Proof. reflexivity. Qed.

Lemma mergePairs_no_merge (cs : list CellObject) :
  length (mergePairs cs) = length cs ->
  List.map (fun c => value c) (mergePairs cs) = List.map (fun c => value c) cs.
Proof.
  induction cs as [| a | a b rest IHrest IHb] using pairs_ind;
    [reflexivity | reflexivity |].
  rewrite mergePairs_two. destruct (value a =? value b)%Z.
  - intros Hlen. cbn [length] in Hlen.
    pose proof (mergePairs_length rest). lia.
  - intros Hlen. cbn [length] in Hlen. cbn [List.map value].
    f_equal. apply IHb. cbn [length]. lia.
Qed.

Lemma compact_full (row : list Cell) :
  length (compact row) = length row -> List.map Some (compact row) = row.
Proof.
  induction row as [|[c|] row IH]; cbn [compact length List.map]; intros H.
  - reflexivity.
  - rewrite IH by lia. reflexivity.
  - pose proof (compact_length row). lia.
Qed.

(** A row that moved ends with an empty cell somewhere. *)
Lemma moveRowLeft_moved_has_empty (row : list Cell) :
  isMoved (moveRowLeft row) = true -> In None (result (moveRowLeft row)).
Proof.
  intros Hm. rewrite moveRowLeft_result. unfold padRight.
  apply in_or_app.
  pose proof (mergePairs_length (compact row)) as H1.
  pose proof (compact_length row) as H2.
  destruct (Nat.eq_dec (length (mergePairs (compact row))) (length row))
    as [E|NE].
  - exfalso. apply not_false_iff_true in Hm. apply Hm.
    apply moveRowLeft_not_moved. rewrite moveRowLeft_result. unfold padRight.
    rewrite length_map, E, Nat.sub_diag. cbn [repeat]. rewrite app_nil_r.
    rewrite map_map. cbn [optValue].
    rewrite <- (map_map (fun c => value c) Some).
    rewrite mergePairs_no_merge by lia.
    rewrite <- (compact_full row) at 2 by lia.
    rewrite !map_map. reflexivity.
  - right. rewrite length_map.
    destruct (length row - length (mergePairs (compact row))) eqn:Ek; [lia|].
    left. reflexivity.
Qed.

Lemma moveLeft_moved_has_empty (g : Map2048) :
  isMoved (moveLeft g) = true -> In None (cells (result (moveLeft g))).
Proof.
  rewrite moveLeft_isMoved, moveLeft_result. intros H.
  apply existsb_exists in H. destruct H as (row & Hin & Hm).
  apply in_concat. exists (result (moveRowLeft row)). split.
  - apply in_map_iff. exists row. split; [reflexivity | exact Hin].
  - apply moveRowLeft_moved_has_empty. exact Hm.
Qed.

Lemma cells_position (R C : nat) (g : Map2048) (c : Cell) :
  rect R C g -> In c (cells g) ->
  exists i j, i < R /\ j < C /\ cellAt g i j = c.
Proof.
  intros Hrect Hin. apply in_concat in Hin.
  destruct Hin as (row & Hrow & Hc).
  destruct (In_nth _ _ [] Hrow) as (i & Hi & Ei).
  destruct (In_nth _ _ None Hc) as (j & Hj & Ej).
  assert (HiR : i < R) by (destruct Hrect; lia).
  exists i, j. split; [exact HiR|]. split.
  - rewrite <- (rect_row_length Hrect HiR), Ei. exact Hj.
  - unfold cellAt. rewrite Ei. exact Ej.
Qed.

Lemma position_cells (R C : nat) (g : Map2048) (i j : nat) :
  rect R C g -> i < R -> j < C -> In (cellAt g i j) (cells g).
Proof.
  intros Hrect Hi Hj. apply in_concat. exists (nth i g []). split.
  - apply nth_In. destruct Hrect; lia.
  - apply nth_In. rewrite (rect_row_length Hrect Hi). exact Hj.
Qed.

(** X1: a move that returns gives back a grid of the dimensions of its
    input. *)
Theorem move_keeps_dimensions
  (R C : nat) (g : Map2048) (d : Direction) (r : MoveResult) :
  rect R C g ->
  moveMapIn2048Rule g d = Ok r ->
  rect R C (result r).
Proof.
  intros Hrect H.
  destruct (move_chain _ _ H)
    as (R' & C' & rotated & Hrect' & HR' & _ & _ & _ & _ & Hshape & _).
  destruct (rect_unique Hrect' Hrect HR') as [-> ->]. exact Hshape.
Qed.

Lemma sample23_rect : rect 2 3 sample23.
Proof. split; [reflexivity | repeat constructor]. Qed.

Lemma move_keeps_dimensions_witness :
  rect 2 3 [[tile normal 2; tile normal 4; tile normal 16];
            [None; tile normal 8; None]].
Proof.
  apply (@move_keeps_dimensions 2 3 sample23 up
           (mkMoved [[tile normal 2; tile normal 4; tile normal 16];
                     [None; tile normal 8; None]] true 0)).
  - exact sample23_rect.
  - reflexivity.
Defined.

(** X2: a move that reports [isMoved] leaves at least one empty cell in the
    grid it returns. *)
Theorem moved_grid_has_an_empty_cell
  (R C : nat) (g : Map2048) (d : Direction) (r : MoveResult) :
  rect R C g ->
  moveMapIn2048Rule g d = Ok r ->
  isMoved r = true ->
  exists i j, i < R /\ j < C /\ cellAt (result r) i j = None.
Proof.
  intros Hrect H Hm.
  destruct (move_chain _ _ H)
    as (R' & C' & rotated & Hrect' & HR' & Hrot & Hpos & _ & E2 & Hshape
        & Em & _).
  destruct (rect_unique Hrect' Hrect HR') as [-> ->].
  apply (@cells_position R C (result r) None Hshape).
  apply (Permutation_in None
           (Permutation_sym
              (@rotate_Permutation _ _ _ _ _ (moveLeft_rect Hrot) Hpos E2))).
  apply moveLeft_moved_has_empty. rewrite <- Em. exact Hm.
Qed.

Lemma moved_grid_has_an_empty_cell_witness :
  exists i j, i < 2 /\ j < 3
    /\ cellAt [[tile normal 2; tile normal 4; tile normal 16];
               [None; tile normal 8; None]] i j = None.
Proof.
  apply (@moved_grid_has_an_empty_cell 2 3 sample23 up
           (mkMoved [[tile normal 2; tile normal 4; tile normal 16];
                     [None; tile normal 8; None]] true 0)).
  - exact sample23_rect.
  - reflexivity.
  - reflexivity.
Defined.

Lemma spawn_keeps_4x4 (g : Map2048) (i j : nat) (c : Cell) :
  is4x4 g -> i < 4 ->
  is4x4 (replaceAt g i (replaceAt (nth i g []) j c)).
Proof.
  intros H44 Hi. destruct (is4x4_row H44 Hi) as [_ Hrowlen].
  destruct H44 as [HR HC]. split; [rewrite replaceAt_length; exact HR|].
  apply Forall_nth. intros k d Hk. rewrite replaceAt_length in Hk.
  rewrite (nth_indep _ d []) by (rewrite replaceAt_length; exact Hk).
  destruct (Nat.eq_dec k i) as [->|Hki].
  - rewrite replaceAt_nth_same by lia. rewrite replaceAt_length. exact Hrowlen.
  - rewrite replaceAt_nth_other by exact Hki.
    rewrite Forall_forall in HC. apply HC, nth_In. exact Hk.
Qed.

Lemma sample44_is4x4 : is4x4 sample44.
Proof. split; [reflexivity | repeat constructor]. Qed.

(** X3: the call sequence of the key handler never fails at the spawn: on a
    4x4 board, when the move returns with [isMoved] true, [addNewCell] on the
    grid it returned finds an empty cell and returns a 4x4 board
    (App, lines 274-277). *)
Theorem spawn_after_move_returns
  (u1 u2 : Q) (g : Map2048) (d : Direction) (r : MoveResult) :
  is4x4 g ->
  moveMapIn2048Rule g d = Ok r ->
  isMoved r = true ->
  (0 <= u2)%Q -> (u2 < 1)%Q ->
  exists g', addNewCell u1 u2 (result r) = Ok g' /\ is4x4 g'.
Proof.
  intros H44 H Hm H0 H1.
  destruct (move_chain _ _ H)
    as (R' & C' & rotated & Hrect' & HR' & Hrot & Hpos & _ & E2 & Hshape
        & Em & _).
  destruct (rect_unique Hrect' H44 HR') as [-> ->].
  assert (Hnone : In None (cells (result r))).
  { apply (Permutation_in None
             (Permutation_sym
                (@rotate_Permutation _ _ _ _ _ (moveLeft_rect Hrot) Hpos E2))).
    apply moveLeft_moved_has_empty. rewrite <- Em. exact Hm. }
  destruct (@cells_position 4 4 (result r) None Hshape Hnone)
    as (i & j & Hi & Hj & Hij).
  assert (Hne : emptyPositions (result r) <> []).
  { intros E. assert (Hin : In (i, j) (emptyPositions (result r)))
      by (apply emptyPositions_In; auto).
    rewrite E in Hin. exact Hin. }
  destruct (addNewCell_returns u1 Hshape H0 H1 Hne) as (i' & j' & Hin & E).
  eexists. split; [exact E|].
  apply emptyPositions_In in Hin.
  apply spawn_keeps_4x4; [exact Hshape | apply Hin].
Qed.

Lemma spawn_after_move_returns_witness :
  exists g', addNewCell (1 # 2) (1 # 2) (result sample44_left) = Ok g'
             /\ is4x4 g'.
Proof.
  apply (@spawn_after_move_returns (1 # 2) (1 # 2) sample44 left sample44_left).
  - exact sample44_is4x4.
  - reflexivity.
  - reflexivity.
  - discriminate.
  - reflexivity.
Defined.

(** ** Tiles, states and score through a move *)

Lemma Permutation_filter_length (p : Cell -> bool) (l l' : list Cell) :
  Permutation l l' -> length (filter p l) = length (filter p l').
Proof.
  induction 1 as [| x l l' _ IH | x y l | l l' l'' _ IH1 _ IH2];
    cbn [filter].
  - reflexivity.
  - destruct (p x); cbn [length]; congruence.
  - destruct (p x), (p y); reflexivity.
  - congruence.
Qed.

Lemma Permutation_sumZ (f : Cell -> Z) (l l' : list Cell) :
  Permutation l l' -> sumZ (List.map f l) = sumZ (List.map f l').
Proof.
  induction 1 as [| x l l' _ IH | x y l | l l' l'' _ IH1 _ IH2];
    cbn [List.map sumZ]; lia.
Qed.

(** The cells through the three stages of a move that returned. *)
Lemma move_cells (g : Map2048) (d : Direction) (r : MoveResult) :
  moveMapIn2048Rule g d = Ok r ->
  exists rotated,
    Permutation (cells rotated) (cells g)
    /\ Permutation (cells (result r)) (cells (result (moveLeft rotated)))
    /\ isMoved r = isMoved (moveLeft rotated)
    /\ score r = score (moveLeft rotated).
Proof.
  intros H.
  destruct (move_chain _ _ H)
    as (R & C & rotated & Hrect & HR & Hrot & Hpos & E1 & E2 & _ & Em & Es).
  exists rotated. split; [|split; [|split; assumption]].
  - apply (@rotate_Permutation _ _ _ _ _ Hrect HR E1).
  - apply (@rotate_Permutation _ _ _ _ _ (moveLeft_rect Hrot) Hpos E2).
Qed.

Lemma moveLeft_cells (g : Map2048) :
  cells (result (moveLeft g))
  = concat (List.map (fun row => result (moveRowLeft row)) g).
Proof. rewrite moveLeft_result. reflexivity. Qed.

Lemma cellAt_Some_In (g : Map2048) (i j : nat) (o : CellObject) :
  cellAt g i j = Some o -> In (Some o) (cells g).
Proof.
  unfold cellAt. intros H.
  destruct (Nat.lt_ge_cases i (length g)) as [Hi|Hi].
  - destruct (Nat.lt_ge_cases j (length (nth i g []))) as [Hj|Hj].
    + rewrite <- H. apply in_concat. exists (nth i g []).
      split; apply nth_In; assumption.
    + rewrite (nth_overflow _ _ Hj) in H. discriminate H.
  - rewrite (nth_overflow g [] Hi) in H. destruct j; discriminate H.
Qed.

Lemma mergePairs_states (cs : list CellObject) :
  forall c, In c (mergePairs cs) -> state c = normal \/ state c = merged.
Proof.
  induction cs as [| a | a b rest IHrest IHb] using pairs_ind.
  - intros c [].
  - intros c [<-|[]]. left. reflexivity.
  - rewrite mergePairs_two. destruct (value a =? value b)%Z;
      intros c [<-|Hin]; auto.
Qed.

Lemma moveRowLeft_states (row : list Cell) (o : CellObject) :
  In (Some o) (result (moveRowLeft row)) ->
  state o = normal \/ state o = merged.
Proof.
  rewrite moveRowLeft_result. unfold padRight. intros H.
  apply in_app_or in H. destruct H as [H|H].
  - apply in_map_iff in H. destruct H as (c & E & Hc).
    injection E as ->. apply (mergePairs_states _ _ Hc).
  - apply repeat_spec in H. discriminate H.
Qed.

(** X4: after a move no tile is in state [new]: every tile of the returned
    grid is [normal] or [merged], whatever the states in the input. *)
Theorem move_resets_states
  (g : Map2048) (d : Direction) (r : MoveResult) (i j : nat)
  (o : CellObject) :
  moveMapIn2048Rule g d = Ok r ->
  cellAt (result r) i j = Some o ->
  state o = normal \/ state o = merged.
Proof.
  intros H Hcell.
  destruct (move_cells _ _ H) as (rotated & _ & P2 & _).
  pose proof (Permutation_in _ P2 (cellAt_Some_In _ _ _ Hcell)) as Hin.
  rewrite moveLeft_cells in Hin. apply in_concat in Hin.
  destruct Hin as (row' & Hrow' & Ho).
  apply in_map_iff in Hrow'. destruct Hrow' as (row & <- & _).
  apply (moveRowLeft_states _ _ Ho).
Qed.

Lemma move_resets_states_witness :
  state (mkCell merged 4) = normal \/ state (mkCell merged 4) = merged.
Proof.
  apply (@move_resets_states sample44 left sample44_left 0 0 (mkCell merged 4));
    reflexivity.
Defined.

Lemma filter_isTile_compact (row : list Cell) :
  length (filter isTile row) = length (compact row).
Proof.
  induction row as [|[c|] row IH]; simpl; auto.
Qed.

Lemma filter_repeat_None (p : Cell -> bool) (k : nat) :
  p None = false -> filter p (repeat None k) = [].
Proof.
  intros Hp. induction k as [|k IH]; cbn [repeat filter]; [reflexivity|].
  rewrite Hp. exact IH.
Qed.

Lemma filter_isTile_Some (l : list CellObject) :
  filter isTile (List.map Some l) = List.map Some l.
Proof.
  induction l as [|c l IH]; [reflexivity|].
  cbn [List.map filter isTile]. rewrite IH. reflexivity.
Qed.

Lemma mergePairs_count (cs : list CellObject) :
  length (mergePairs cs)
  + length (filter isMerged (List.map Some (mergePairs cs)))
  = length cs.
Proof.
  induction cs as [| a | a b rest IHrest IHb] using pairs_ind;
    [reflexivity | reflexivity |].
  rewrite mergePairs_two. destruct (value a =? value b)%Z;
    cbn [List.map filter isMerged state length]; cbn [length] in IHb; lia.
Qed.

(** In a reduced row, the tiles and the merges add up to the tiles of the
    original row: each merge made one tile out of two. *)
Lemma moveRowLeft_count (row : list Cell) :
  length (filter isTile (result (moveRowLeft row)))
  + length (filter isMerged (result (moveRowLeft row)))
  = length (filter isTile row).
Proof.
  rewrite moveRowLeft_result. unfold padRight.
  rewrite !filter_app, !filter_repeat_None, !app_nil_r by reflexivity.
  rewrite filter_isTile_Some, length_map, filter_isTile_compact.
  apply mergePairs_count.
Qed.

Lemma moveLeft_count (g : Map2048) :
  countTiles (result (moveLeft g)) + countMerged (result (moveLeft g))
  = countTiles g.
Proof.
  unfold countTiles, countMerged. rewrite moveLeft_cells. unfold cells.
  induction g as [|row g IH]; [reflexivity|].
  cbn [List.map concat]. rewrite !filter_app, !length_app.
  pose proof (moveRowLeft_count row). lia.
Qed.

(** X5: through a move, the tiles of the returned grid plus the tiles in
    state [merged] add up to the tiles of the input: every merge turns two
    tiles into one, and no tile appears or disappears otherwise. *)
Theorem move_counts_tiles (g : Map2048) (d : Direction) (r : MoveResult) :
  moveMapIn2048Rule g d = Ok r ->
  countTiles (result r) + countMerged (result r) = countTiles g.
Proof.
  intros H. destruct (move_cells _ _ H) as (rotated & P1 & P2 & _).
  unfold countTiles, countMerged.
  rewrite (Permutation_filter_length isTile P2).
  rewrite (Permutation_filter_length isMerged P2).
  rewrite <- (Permutation_filter_length isTile P1).
  apply moveLeft_count.
Qed.

Lemma move_counts_tiles_witness :
  countTiles (result sample44_left) + countMerged (result sample44_left)
  = countTiles sample44.
Proof.
  apply (@move_counts_tiles sample44 left sample44_left). reflexivity.
Defined.

Lemma mergeScore_merged (cs : list CellObject) :
  mergeScore cs = sumZ (List.map mergedValue (List.map Some (mergePairs cs))).
Proof.
  induction cs as [| a | a b rest IHrest IHb] using pairs_ind;
    [reflexivity | reflexivity |].
  rewrite mergePairs_two, mergeScore_two. destruct (value a =? value b)%Z.
  - rewrite IHrest. reflexivity.
  - rewrite IHb. reflexivity.
Qed.

Lemma mergedValue_repeat_None (k : nat) :
  sumZ (List.map mergedValue (repeat None k)) = 0%Z.
Proof. induction k as [|k IH]; [reflexivity | exact IH]. Qed.

Lemma moveRowLeft_score_merged (row : list Cell) :
  score (moveRowLeft row)
  = sumZ (List.map mergedValue (result (moveRowLeft row))).
Proof.
  rewrite moveRowLeft_score, moveRowLeft_result. unfold padRight.
  rewrite map_app, sumZ_app, mergedValue_repeat_None, <- mergeScore_merged.
  lia.
Qed.

Lemma moveLeft_score_merged (g : Map2048) :
  score (moveLeft g)
  = sumZ (List.map mergedValue (cells (result (moveLeft g)))).
Proof.
  rewrite moveLeft_score, moveLeft_cells, map_map.
  induction g as [|row g IH]; [reflexivity|].
  cbn [List.map sumZ concat]. rewrite map_app, sumZ_app, <- IH.
  rewrite moveRowLeft_score_merged. reflexivity.
Qed.

(** X6: the score of a move is the sum of the values of the tiles that the
    returned grid holds in state [merged]. *)
Theorem move_score_is_sum_of_merged_tiles
  (g : Map2048) (d : Direction) (r : MoveResult) :
  moveMapIn2048Rule g d = Ok r ->
  score r = sumZ (List.map mergedValue (cells (result r))).
Proof.
  intros H. destruct (move_cells _ _ H) as (rotated & _ & P2 & _ & Es).
  rewrite Es, (Permutation_sumZ mergedValue P2).
  apply moveLeft_score_merged.
Qed.

Lemma move_score_is_sum_of_merged_tiles_witness :
  score sample44_left
  = sumZ (List.map mergedValue (cells (result sample44_left))).
Proof.
  apply (@move_score_is_sum_of_merged_tiles sample44 left sample44_left).
  reflexivity.
Defined.

Lemma mergeScore_nonneg (cs : list CellObject) :
  (forall c, In c cs -> (0 <= value c)%Z) -> (0 <= mergeScore cs)%Z.
Proof.
  induction cs as [| a | a b rest IHrest IHb] using pairs_ind;
    intros Hpos; [cbn; lia | cbn; lia |].
  rewrite mergeScore_two. destruct (value a =? value b)%Z.
  - assert (0 <= value a)%Z by (apply Hpos; left; reflexivity).
    assert (0 <= mergeScore rest)%Z
      by (apply IHrest; intros c Hc; apply Hpos; right; right; exact Hc).
    lia.
  - apply IHb. intros c Hc. apply Hpos. right. exact Hc.
Qed.

Lemma compact_In (row : list Cell) (c : CellObject) :
  In c (compact row) <-> In (Some c) row.
Proof.
  induction row as [|[x|] row IH]; cbn [compact In].
  - reflexivity.
  - rewrite IH. split; intros [E|H]; auto; left; congruence.
  - rewrite IH. split; [auto | intros [E|H]; [discriminate E | exact H]].
Qed.

Lemma nonNegative_compact (row : list Cell) :
  nonNegative row -> forall c, In c (compact row) -> (0 <= value c)%Z.
Proof.
  intros Hrow c Hc. apply compact_In in Hc. exact (Hrow (Some c) Hc).
Qed.

Lemma moveLeft_score_nonneg (g : Map2048) :
  nonNegative (cells g) -> (0 <= score (moveLeft g))%Z.
Proof.
  rewrite moveLeft_score, map_map. unfold cells.
  induction g as [|row g IH]; intros Hpos; [cbn; lia|].
  cbn [List.map sumZ].
  assert (0 <= score (moveRowLeft row))%Z.
  { rewrite moveRowLeft_score. apply mergeScore_nonneg, nonNegative_compact.
    intros c Hc. apply Hpos. cbn [concat]. apply in_or_app. left. exact Hc. }
  assert (0 <= sumZ (List.map (fun x => score (moveRowLeft x)) g))%Z.
  { apply IH. intros c Hc. apply Hpos. cbn [concat]. apply in_or_app.
    right. exact Hc. }
  lia.
Qed.

(** X7: when no tile of the grid holds a negative value, the score of a move
    is not negative. *)
Theorem move_score_nonnegative
  (g : Map2048) (d : Direction) (r : MoveResult) :
  nonNegative (cells g) ->
  moveMapIn2048Rule g d = Ok r ->
  (0 <= score r)%Z.
Proof.
  intros Hpos H. destruct (move_cells _ _ H) as (rotated & P1 & _ & _ & Es).
  rewrite Es. apply moveLeft_score_nonneg.
  intros c Hc. apply Hpos. apply (Permutation_in _ P1 Hc).
Qed.

Lemma sample44_nonNegative : nonNegative (cells sample44).
Proof.
  intros c Hc. cbn in Hc.
  repeat (destruct Hc as [<-|Hc]; [cbn; lia|]). destruct Hc.
Qed.

Lemma move_score_nonnegative_witness : (0 <= score sample44_left)%Z.
Proof.
  apply (@move_score_nonnegative sample44 left sample44_left).
  - exact sample44_nonNegative.
  - reflexivity.
Defined.

(** ** The largest tile *)

Lemma fold_jsMax2 (xs : list JsNumber) :
  forall a,
    match fold_left jsMax2 xs a with
    | NegInfinity => a = NegInfinity /\ forall x, In x xs -> x = NegInfinity
    | Num m =>
        (a = Num m \/ In (Num m) xs)
        /\ forall z, a = Num z \/ In (Num z) xs -> (z <= m)%Z
    end.
Proof.
  induction xs as [|x xs IH]; intros a.
  - cbn [fold_left]. destruct a as [|m].
    + split; [reflexivity | intros x []].
    + split; [left; reflexivity|]. intros z [E|[]]. injection E as ->. lia.
  - cbn [fold_left]. specialize (IH (jsMax2 a x)).
    destruct (fold_left jsMax2 xs (jsMax2 a x)) as [|m].
    + destruct IH as [Ea Hall]. destruct a, x; try discriminate Ea.
      split; [reflexivity|]. intros y [<-|Hy]; [reflexivity | auto].
    + destruct IH as [Hm Hub]. split.
      * destruct Hm as [E|Hin]; [|right; right; exact Hin].
        destruct a as [|za], x as [|zx]; cbn [jsMax2] in E;
          try discriminate E.
        -- right. left. exact E.
        -- left. exact E.
        -- injection E as <-.
           destruct (Z.max_spec za zx) as [[_ ->]|[_ ->]];
             [right; left; reflexivity | left; reflexivity].
      * intros z Hz. destruct Hz as [->|[->|Hin]].
        -- destruct x as [|zx]; cbn [jsMax2] in Hub.
           ++ apply Hub. left. reflexivity.
           ++ assert (Z.max z zx <= m)%Z by (apply Hub; left; reflexivity).
              lia.
        -- destruct a as [|za]; cbn [jsMax2] in Hub.
           ++ apply Hub. left. reflexivity.
           ++ assert (Z.max za z <= m)%Z by (apply Hub; left; reflexivity).
              lia.
        -- apply Hub. right. exact Hin.
Qed.

(** [Math.max(...xs)] is [-Infinity] when every argument is, and otherwise
    the largest of the numbers among the arguments. *)
Lemma mathMax_spec (xs : list JsNumber) :
  match mathMax xs with
  | NegInfinity => forall x, In x xs -> x = NegInfinity
  | Num m => In (Num m) xs /\ forall z, In (Num z) xs -> (z <= m)%Z
  end.
Proof.
  unfold mathMax. pose proof (fold_jsMax2 xs NegInfinity) as H.
  destruct (fold_left jsMax2 xs NegInfinity) as [|m].
  - exact (proj2 H).
  - destruct H as [[E|Hin] Hub]; [discriminate E|].
    split; [exact Hin|]. intros z Hz. apply Hub. right. exact Hz.
Qed.

Lemma rowMax_spec (row : list Cell) :
  match rowMax row with
  | NegInfinity => row = []
  | Num m =>
      (exists c, In c row /\ cellValue c = m)
      /\ forall c, In c row -> (cellValue c <= m)%Z
  end.
Proof.
  unfold rowMax.
  pose proof (mathMax_spec
                (List.map (fun x => match x with
                                    | Some o => Num (value o)
                                    | None => Num 0
                                    end) row)) as H.
  destruct (mathMax _) as [|m].
  - destruct row as [|c row]; [reflexivity|]. exfalso.
    specialize (H _ (or_introl eq_refl)). destruct c; discriminate H.
  - destruct H as [Hin Hub]. split.
    + apply in_map_iff in Hin. destruct Hin as (c & E & Hc).
      exists c. split; [exact Hc|]. destruct c; injection E as <-; reflexivity.
    + intros c Hc. apply Hub. apply in_map_iff. exists c.
      split; [destruct c; reflexivity | exact Hc].
Qed.

Lemma findMaxInMap_rows (g : Map2048) :
  findMaxInMap g = mathMax (List.map rowMax g).
Proof. reflexivity. Qed.

Lemma findMaxInMap_spec (g : Map2048) :
  match findMaxInMap g with
  | NegInfinity => cells g = []
  | Num m =>
      (exists c, In c (cells g) /\ cellValue c = m)
      /\ forall c, In c (cells g) -> (cellValue c <= m)%Z
  end.
Proof.
  rewrite findMaxInMap_rows.
  pose proof (mathMax_spec (List.map rowMax g)) as H.
  destruct (mathMax (List.map rowMax g)) as [|m].
  - unfold cells. induction g as [|row g IH]; [reflexivity|].
    cbn [concat]. pose proof (rowMax_spec row) as Hrow.
    rewrite (H (rowMax row) (or_introl eq_refl)) in Hrow. rewrite Hrow.
    apply IH. intros x Hx. apply H. right. exact Hx.
  - destruct H as [Hin Hub]. split.
    + apply in_map_iff in Hin. destruct Hin as (row & E & Hrow).
      pose proof (rowMax_spec row) as Hspec. rewrite E in Hspec.
      destruct Hspec as [(c & Hc & Ec) _]. exists c. split; [|exact Ec].
      apply in_concat. exists row. split; assumption.
    + intros c Hc. apply in_concat in Hc. destruct Hc as (row & Hrow & Hc).
      pose proof (rowMax_spec row) as Hspec.
      destruct (rowMax row) as [|m'] eqn:E.
      * rewrite Hspec in Hc. destruct Hc.
      * destruct Hspec as [_ Hub']. specialize (Hub' c Hc).
        assert (m' <= m)%Z.
        { apply Hub. apply in_map_iff. exists row. split; assumption. }
        lia.
Qed.

(** X8: [findMaxInMap] returns [-Infinity] exactly when the grid has no cell
    at all (no row, or empty rows only); otherwise it returns the largest
    value found in the grid, an empty cell counting as 0: the number is
    reached by some cell and no cell exceeds it. *)
Theorem findMaxInMap_is_the_largest_value (g : Map2048) :
  (findMaxInMap g = NegInfinity <-> cells g = [])
  /\ (forall m, findMaxInMap g = Num m ->
        (exists c, In c (cells g) /\ cellValue c = m)
        /\ forall c, In c (cells g) -> (cellValue c <= m)%Z).
Proof.
  pose proof (findMaxInMap_spec g) as H. split.
  - destruct (findMaxInMap g) as [|m].
    + split; [intros _; exact H | reflexivity].
    + split; [discriminate|]. intros E. exfalso.
      destruct H as [(c & Hc & _) _]. rewrite E in Hc. exact Hc.
  - intros m E. rewrite E in H. exact H.
Qed.

Lemma findMaxInMap_is_the_largest_value_witness :
  (exists c, In c (cells sample44) /\ cellValue c = 8%Z)
  /\ forall c, In c (cells sample44) -> (cellValue c <= 8)%Z.
Proof.
  apply (proj2 (findMaxInMap_is_the_largest_value sample44) 8%Z).
  reflexivity.
Defined.

Lemma mergePairs_dominates (cs : list CellObject) :
  (forall c, In c cs -> (0 <= value c)%Z) ->
  forall c, In c cs ->
    exists c', In c' (mergePairs cs) /\ (value c <= value c')%Z.
Proof.
  induction cs as [| a | a b rest IHrest IHb] using pairs_ind; intros Hpos c Hc.
  - destruct Hc.
  - destruct Hc as [<-|[]]. eexists. split; [left; reflexivity|]. cbn [value]. lia.
  - rewrite mergePairs_two. destruct (value a =? value b)%Z eqn:E.
    + apply Z.eqb_eq in E.
      assert (0 <= value a)%Z by (apply Hpos; left; reflexivity).
      destruct Hc as [<-|[<-|Hc]].
      * eexists. split; [left; reflexivity|]. cbn [value]. lia.
      * eexists. split; [left; reflexivity|]. cbn [value]. lia.
      * destruct (IHrest (fun x Hx => Hpos x (or_intror (or_intror Hx))) c Hc)
          as (c' & Hc' & Hle).
        exists c'. split; [right; exact Hc' | exact Hle].
    + destruct Hc as [<-|Hc].
      * eexists. split; [left; reflexivity|]. cbn [value]. lia.
      * destruct (IHb (fun x Hx => Hpos x (or_intror Hx)) c Hc)
          as (c' & Hc' & Hle).
        exists c'. split; [right; exact Hc' | exact Hle].
Qed.

(** Every cell of a row is matched, in the reduced row, by a cell of at
    least its value, as long as no value is negative. *)
Lemma moveRowLeft_dominates (row : list Cell) (c : Cell) :
  nonNegative row -> In c row ->
  exists c', In c' (result (moveRowLeft row))
             /\ (cellValue c <= cellValue c')%Z.
Proof.
  intros Hpos Hc. rewrite moveRowLeft_result. unfold padRight.
  destruct c as [o|].
  - destruct (@mergePairs_dominates (compact row) (nonNegative_compact Hpos) o
                (proj2 (compact_In row o) Hc)) as (o' & Ho' & Hle).
    exists (Some o'). split; [|exact Hle].
    apply in_or_app. left. apply in_map. exact Ho'.
  - exists None. split; [|cbn; lia].
    apply in_or_app. right. rewrite length_map.
    assert (Hlt : length (compact row) < length row).
    { clear Hpos. induction row as [|[x|] row IH]; cbn [compact length].
      - destruct Hc.
      - destruct Hc as [E|Hc]; [discriminate E|]. specialize (IH Hc). lia.
      - pose proof (compact_length row). lia. }
    pose proof (mergePairs_length (compact row)).
    destruct (length row - length (mergePairs (compact row))) eqn:Ek; [lia|].
    left. reflexivity.
Qed.

(** X9: when no tile holds a negative value, a move never lowers the largest
    tile: if [findMaxInMap] gives [m] on the input, it gives some [m'] with
    [m <= m'] on the grid returned by the move. *)
Theorem move_never_lowers_the_largest_tile
  (g : Map2048) (d : Direction) (r : MoveResult) (m : Z) :
  nonNegative (cells g) ->
  moveMapIn2048Rule g d = Ok r ->
  findMaxInMap g = Num m ->
  exists m', findMaxInMap (result r) = Num m' /\ (m <= m')%Z.
Proof.
  intros Hpos H Hmax.
  destruct (move_cells _ _ H) as (rotated & P1 & P2 & _).
  pose proof (findMaxInMap_spec g) as Hg. rewrite Hmax in Hg.
  destruct Hg as [(c & Hc & <-) _].
  apply (Permutation_in _ (Permutation_sym P1)) in Hc.
  apply in_concat in Hc. destruct Hc as (row & Hrow & Hc).
  assert (Hrowpos : nonNegative row).
  { intros x Hx. apply Hpos. apply (Permutation_in _ P1).
    apply in_concat. exists row. split; assumption. }
  destruct (@moveRowLeft_dominates row c Hrowpos Hc) as (c' & Hc' & Hle).
  assert (Hin : In c' (cells (result r))).
  { apply (Permutation_in _ (Permutation_sym P2)).
    rewrite moveLeft_cells. apply in_concat.
    exists (result (moveRowLeft row)). split; [|exact Hc'].
    apply in_map_iff. exists row. split; [reflexivity | exact Hrow]. }
  pose proof (findMaxInMap_spec (result r)) as Hr.
  destruct (findMaxInMap (result r)) as [|m'].
  - rewrite Hr in Hin. destruct Hin.
  - exists m'. split; [reflexivity|].
    destruct Hr as [_ Hub]. specialize (Hub c' Hin). lia.
Qed.

Lemma move_never_lowers_the_largest_tile_witness :
  exists m', findMaxInMap (result sample44_left) = Num m' /\ (8 <= m')%Z.
Proof.
  apply (@move_never_lowers_the_largest_tile sample44 left sample44_left 8%Z).
  - exact sample44_nonNegative.
  - reflexivity.
  - reflexivity.
Defined.

(** ** States have no effect on a move *)

Lemma Moved_eq {A : Type} (a b : Moved A) :
  result a = result b -> isMoved a = isMoved b -> score a = score b -> a = b.
Proof. destruct a, b; cbn; intros -> -> ->; reflexivity. Qed.

Lemma compact_values (row row' : list Cell) :
  List.map optValue row = List.map optValue row' ->
  List.map (fun c => value c) (compact row)
  = List.map (fun c => value c) (compact row').
Proof.
  revert row'. induction row as [|c row IH]; intros [|c' row'] H;
    try discriminate H; [reflexivity|].
  cbn [List.map] in H. injection H as Hc Hrow.
  destruct c as [o|], c' as [o'|]; try discriminate Hc; cbn [compact List.map].
  - cbn [optValue] in Hc. injection Hc as ->. f_equal. apply IH, Hrow.
  - apply IH, Hrow.
Qed.

Lemma mergePairs_values (cs : list CellObject) :
  forall cs',
    List.map (fun c => value c) cs = List.map (fun c => value c) cs' ->
    mergePairs cs = mergePairs cs' /\ mergeScore cs = mergeScore cs'.
Proof.
  induction cs as [| a | a b rest IHrest IHb] using pairs_ind; intros cs' H.
  - destruct cs'; [split; reflexivity | discriminate H].
  - destruct cs' as [|a' [|b' rest']]; try discriminate H.
    cbn [List.map] in H. injection H as H. cbn [mergePairs]. rewrite H.
    split; reflexivity.
  - destruct cs' as [|a' [|b' rest']]; try discriminate H.
    cbn [List.map] in H. injection H as Ha Hb Hrest.
    rewrite !mergePairs_two, !mergeScore_two, Ha, Hb.
    destruct (IHrest rest' Hrest) as [-> ->].
    destruct (IHb (b' :: rest')) as [-> ->];
      [cbn [List.map]; rewrite Hb, Hrest; reflexivity|].
    split; reflexivity.
Qed.

(** The line reducer reads the values of the cells only. *)
Lemma moveRowLeft_values (row row' : list Cell) :
  List.map optValue row = List.map optValue row' ->
  moveRowLeft row = moveRowLeft row'.
Proof.
  intros H.
  assert (Hlen : length row = length row')
    by (rewrite <- (length_map optValue row), H; apply length_map).
  assert (Hres : result (moveRowLeft row) = result (moveRowLeft row')).
  { rewrite !moveRowLeft_result, Hlen.
    rewrite (proj1 (@mergePairs_values _ _ (@compact_values row row' H))).
    reflexivity. }
  apply Moved_eq.
  - exact Hres.
  - pose proof (moveRowLeft_not_moved row) as I.
    pose proof (moveRowLeft_not_moved row') as I'.
    rewrite Hres, H in I.
    destruct (isMoved (moveRowLeft row)), (isMoved (moveRowLeft row'));
      try reflexivity.
    + exfalso. assert (E : true = false) by (apply I, I'; reflexivity).
      discriminate E.
    + exfalso. assert (E : true = false) by (apply I', I; reflexivity).
      discriminate E.
  - rewrite !moveRowLeft_score.
    exact (proj2 (@mergePairs_values _ _ (@compact_values row row' H))).
Qed.

Lemma moveLeft_values (g g' : Map2048) :
  values g = values g' -> moveLeft g = moveLeft g'.
Proof.
  intros H.
  assert (Hrows : List.map moveRowLeft g = List.map moveRowLeft g').
  { revert g' H. unfold values.
    induction g as [|row g IH]; intros [|row' g'] H; try discriminate H;
      [reflexivity|].
    cbn [List.map] in H. injection H as Hrow Hg. cbn [List.map].
    rewrite (@moveRowLeft_values row row' Hrow), (IH g' Hg). reflexivity. }
  unfold moveLeft. rewrite Hrows. reflexivity.
Qed.

Lemma values_lengths (g g' : Map2048) :
  values g = values g' ->
  List.map (fun row => length row) g = List.map (fun row => length row) g'.
Proof.
  unfold values. revert g'.
  induction g as [|row g IH]; intros [|row' g'] H; try discriminate H;
    [reflexivity|].
  cbn [List.map] in H. injection H as Hrow Hg. cbn [List.map].
  rewrite (IH g' Hg). f_equal.
  rewrite <- (length_map optValue row), Hrow. apply length_map.
Qed.

Lemma forallb_lengths (n : nat) (g : Map2048) :
  forallb (fun row => length row =? n) g
  = forallb (fun k => k =? n) (List.map (fun row => length row) g).
Proof.
  induction g as [|row g IH]; [reflexivity|].
  cbn [List.map forallb]. rewrite IH. reflexivity.
Qed.

Lemma validate_lengths (g g' : Map2048) :
  List.map (fun row => length row) g = List.map (fun row => length row) g' ->
  validateMapIsNByM g = validateMapIsNByM g'.
Proof.
  intros H. destruct g as [|row g], g' as [|row' g']; try discriminate H;
    [reflexivity|].
  unfold validateMapIsNByM. cbn [firstRowLength bind].
  rewrite !forallb_lengths, H.
  cbn [List.map] in H. injection H as Hrow _. rewrite Hrow. reflexivity.
Qed.

(** Two grids that agree value-for-value are moved to the same result,
    states included. *)
Lemma move_values (g g' : Map2048) (d : Direction) :
  values g = values g' ->
  moveMapIn2048Rule g d = moveMapIn2048Rule g' d.
Proof.
  intros H. unfold moveMapIn2048Rule.
  rewrite <- (@validate_lengths g g' (@values_lengths g g' H)).
  destruct (validateMapIsNByM g) as [[|]|e] eqn:V; cbn [bind negb];
    try reflexivity.
  destruct (validate_true_rect _ V) as [HR Hrect].
  assert (Hrect' : rect (length g) (length (hd [] g)) g').
  { apply values_rect. rewrite <- H. apply values_rect. exact Hrect. }
  destruct (rotate_remaps Hrect HR (rotateDegreeMap d)) as (o & Eo & _ & _).
  destruct (rotate_remaps Hrect' HR (rotateDegreeMap d)) as (o' & Eo' & _ & _).
  rewrite Eo, Eo'. cbn [bind].
  rewrite (@moveLeft_values o o'
             (@rotate_values _ _ _ _ _ _ (rotateDegreeMap d) Hrect HR H Eo Eo')).
  reflexivity.
Qed.

(** X10: the states of the cells have no effect on a move: two grids that
    agree value-for-value give the same outcome, error or result, with the
    same grid (states included), flag and score. *)
Theorem move_ignores_states (g g' : Map2048) (d : Direction) :
  values g = values g' ->
  moveMapIn2048Rule g d = moveMapIn2048Rule g' d.
Proof. apply move_values. Qed.

Lemma move_ignores_states_witness :
  moveMapIn2048Rule stuck22 up
  = moveMapIn2048Rule [[tile normal 2; tile merged 4];
                       [tile new 4; tile new 2]] up.
Proof. apply move_ignores_states. reflexivity. Defined.

Lemma savedGrid_values (g : Map2048) : values (savedGrid g) = values g.
Proof.
  unfold values, savedGrid. rewrite map_map. apply map_ext. intros row.
  rewrite map_map. apply map_ext. intros [o|]; reflexivity.
Qed.

(** X11: the grid written to storage holds the values of the grid, every
    tile in state [new]; moving it gives exactly the outcome of moving the
    grid itself, so that nothing of a game is lost by saving it. *)
Theorem saved_grid_plays_the_same (g : Map2048) (d : Direction) :
  values (savedGrid g) = values g
  /\ (forall i j o, cellAt (savedGrid g) i j = Some o -> state o = new)
  /\ savedGrid (savedGrid g) = savedGrid g
  /\ moveMapIn2048Rule (savedGrid g) d = moveMapIn2048Rule g d.
Proof.
  split; [apply savedGrid_values|]. split; [|split].
  - intros i j o H. apply cellAt_Some_In in H.
    apply in_concat in H. destruct H as (row' & Hrow' & Ho).
    unfold savedGrid in Hrow'. apply in_map_iff in Hrow'.
    destruct Hrow' as (row & <- & _).
    apply in_map_iff in Ho. destruct Ho as ([x|] & E & _);
      [injection E as <-; reflexivity | discriminate E].
  - unfold savedGrid. rewrite map_map. apply map_ext. intros row.
    rewrite map_map. apply map_ext. intros [o|]; reflexivity.
  - apply move_values, savedGrid_values.
Qed.

(** ** The flag of a move *)

Lemma forward_is_inverse_of_revert (d : Direction) :
  degreeAdd (revertDegreeMap d) (rotateDegreeMap d) = D0.
Proof. destruct d; reflexivity. Qed.

Lemma moveLeft_moved_differs (g : Map2048) :
  isMoved (moveLeft g) = true -> values (result (moveLeft g)) <> values g.
Proof.
  rewrite moveLeft_isMoved, moveLeft_result. unfold values.
  induction g as [|row g IH]; [discriminate|].
  cbn [existsb List.map]. intros H E. injection E as Erow Eg.
  apply orb_true_iff in H. destruct H as [H|H].
  - apply moveRowLeft_not_moved in Erow. congruence.
  - exact (IH H Eg).
Qed.

(** X12: the flag of a move tells exactly whether the grid changed: when a
    move returns with [isMoved] true, the returned grid differs from the
    input at some position, in emptiness or in value. *)
Theorem moved_result_differs_from_input
  (g : Map2048) (d : Direction) (r : MoveResult) :
  moveMapIn2048Rule g d = Ok r ->
  isMoved r = true ->
  values (result r) <> values g.
Proof.
  intros H Hm Hv.
  destruct (move_chain _ _ H)
    as (R & C & rotated & Hrect & HR & Hrot & Hpos & E1 & E2 & Hshape
        & Em & _).
  rewrite Em in Hm. apply (moveLeft_moved_differs _ Hm).
  assert (Hback : 1 <= rotRows (revertDegreeMap d)
                         (rotRows (rotateDegreeMap d) R C)
                         (rotCols (rotateDegreeMap d) R C))
    by (destruct d; exact HR).
  destruct (rotate_compose (revertDegreeMap d) (rotateDegreeMap d)
              (moveLeft_rect Hrot) Hpos Hback) as (o & Eo & Ecomp).
  rewrite E2 in Eo. injection Eo as <-.
  rewrite forward_is_inverse_of_revert in Ecomp.
  assert (E0 : rotateMapCounterClockwise (result (moveLeft rotated)) D0
               = Ok (result (moveLeft rotated))).
  { unfold rotateMapCounterClockwise.
    rewrite (rect_firstRowLength (moveLeft_rect Hrot) Hpos). reflexivity. }
  rewrite E0 in Ecomp.
  apply (@rotate_values _ _ _ _ _ _ (rotateDegreeMap d) Hshape HR Hv Ecomp E1).
Qed.

Lemma moved_result_differs_from_input_witness :
  values (result sample44_left) <> values sample44.
Proof.
  apply (@moved_result_differs_from_input sample44 left sample44_left);
    reflexivity.
Defined.

(** ** The shape of a reduced row *)

(** X13: the line reducer packs the tiles to the left: in the row it
    returns, no tile stands to the right of an empty cell, and the row has
    the length of the original. *)
Theorem moveRowLeft_packs_left (row : list Cell) :
  length (result (moveRowLeft row)) = length row
  /\ forall i j, i <= j ->
       nth i (result (moveRowLeft row)) None = None ->
       nth j (result (moveRowLeft row)) None = None.
Proof.
  split; [apply moveRowLeft_length|].
  rewrite moveRowLeft_result. unfold padRight.
  set (l := mergePairs (compact row)).
  intros i j Hij Hi.
  assert (Hlen : length (List.map Some l) <= i).
  { destruct (Nat.lt_ge_cases i (length (List.map Some l))) as [Hlt|Hge];
      [|exact Hge].
    exfalso. rewrite app_nth1 in Hi by exact Hlt.
    rewrite length_map in Hlt.
    rewrite (nth_indep _ None (Some (nth 0 l (mkCell normal 0))))
      in Hi by (rewrite length_map; exact Hlt).
    rewrite (map_nth Some) in Hi. discriminate Hi. }
  rewrite app_nth2 by exact (Nat.le_trans _ _ _ Hlen Hij).
  apply nth_repeat.
Qed.

Lemma moveRowLeft_packs_left_witness :
  nth 2 (result (moveRowLeft [None; tile new 2; None; tile new 2])) None
  = None.
Proof.
  apply (proj2 (moveRowLeft_packs_left [None; tile new 2; None; tile new 2])
               1 2).
  - lia.
  - reflexivity.
Defined.

(** ** Rotation as a rearrangement *)

(** X14: a rotation neither creates, drops nor alters a cell: the cells of
    the rotated grid are the cells of the grid in another order, and the
    rotation commutes with every cell-wise transformation of the grid. *)
Theorem rotation_rearranges_cells
  (R C : nat) (g g' : Map2048) (d : RotateDegree) :
  rect R C g -> 1 <= R ->
  rotateMapCounterClockwise g d = Ok g' ->
  Permutation (cells g') (cells g)
  /\ forall h, rotateMapCounterClockwise (mapGrid h g) d = Ok (mapGrid h g').
Proof.
  intros Hrect HR E. split.
  - apply (@rotate_Permutation _ _ _ _ _ Hrect HR E).
  - intros h. apply (@rotate_mapGrid h _ _ _ _ _ Hrect HR E).
Qed.

Lemma rotation_rearranges_cells_witness :
  Permutation
    (cells [[None; tile normal 16]; [tile new 4; tile merged 8];
            [tile normal 2; None]])
    (cells sample23)
  /\ forall h,
       rotateMapCounterClockwise (mapGrid h sample23) D90
       = Ok (mapGrid h [[None; tile normal 16]; [tile new 4; tile merged 8];
                        [tile normal 2; None]]).
Proof.
  apply (@rotation_rearranges_cells 2 3 sample23 _ D90).
  - exact sample23_rect.
  - lia.
  - reflexivity.
Defined.

(** ** More on the spawner *)

(** What a spawn that returned did. *)
Lemma addNewCell_inversion (u1 u2 : Q) (g g' : Map2048) :
  is4x4 g ->
  addNewCell u1 u2 g = Ok g' ->
  exists i j,
    nth_error (emptyPositions g)
              (Z.to_nat (getRandomInt u2 (length (emptyPositions g))))
    = Some (i, j)
    /\ i < 4 /\ j < 4 /\ cellAt g i j = None
    /\ g' = replaceAt g i
              (replaceAt (nth i g []) j
                 (Some (mkCell new
                    (if Qlt_le_dec u1 (6 # 10)%Q then 2%Z else 4%Z)))).
Proof.
  intros H44 H. unfold addNewCell in H.
  rewrite (collectNullPositions_spec H44) in H. cbn [bind] in H.
  destruct (getRandomInt u2 (length (emptyPositions g)) <? 0)%Z;
    [discriminate H|].
  destruct (nth_error (emptyPositions g)
              (Z.to_nat (getRandomInt u2 (length (emptyPositions g)))))
    as [[i j]|] eqn:Enth; [|discriminate H].
  cbn [bind] in H. exists i, j. split; [reflexivity|].
  pose proof (nth_error_In _ _ Enth) as Hin.
  apply emptyPositions_In in Hin. destruct Hin as (Hi & Hj & Hnone).
  repeat (split; [assumption|]).
  destruct (is4x4_row H44 Hi) as [Hrow Hrowlen].
  rewrite Hrow in H. cbn [bind] in H. unfold arrayWith in H.
  rewrite Hrowlen in H. destruct H44 as [HR _]. rewrite HR in H.
  rewrite (proj2 (Nat.ltb_lt j 4) Hj), (proj2 (Nat.ltb_lt i 4) Hi) in H.
  cbn [bind] in H. congruence.
Qed.



(** X16: the spawner needs four rows: on a grid of fewer than four rows it
    throws a [TypeError], whatever the cells and the draws. *)
Theorem addNewCell_throws_below_four_rows (u1 u2 : Q) (g : Map2048) :
  length g < 4 -> addNewCell u1 u2 g = Throw TypeError.
Proof.
  intros Hlen.
  assert (E : collectNullPositions g = Throw TypeError).
  { destruct g as [|r0 [|r1 [|r2 [|r3 g]]]];
      [reflexivity | reflexivity | reflexivity | reflexivity
       | cbn [length] in Hlen; lia]. }
  unfold addNewCell. rewrite E. reflexivity.
Qed.

Lemma addNewCell_throws_below_four_rows_witness :
  addNewCell (1 # 2) (1 # 2) sample23 = Throw TypeError.
Proof.
  apply (@addNewCell_throws_below_four_rows (1 # 2) (1 # 2) sample23).
  cbn. lia.
Defined.

Lemma getRandomInt_rank (k n : nat) :
  k < S n ->
  getRandomInt (Z.of_nat k # Pos.of_succ_nat n)%Q (S n) = Z.of_nat k.
Proof.
  intros Hk. unfold getRandomInt.
  assert (E : ((Z.of_nat k # Pos.of_succ_nat n) * inject_Z (Z.of_nat (S n))
               == inject_Z (Z.of_nat k))%Q).
  { unfold Qeq, Qmult, inject_Z. cbn [Qnum Qden].
    rewrite Pos.mul_1_r, Zpos_P_of_succ_nat, Nat2Z.inj_succ. lia. }
  rewrite E. apply Qfloor_Z.
Qed.

Lemma rank_draw_in_range (k n : nat) :
  k < S n ->
  (0 <= Z.of_nat k # Pos.of_succ_nat n)%Q
  /\ (Z.of_nat k # Pos.of_succ_nat n < 1)%Q.
Proof.
  intros Hk. unfold Qle, Qlt. cbn [Qnum Qden].
  rewrite Zpos_P_of_succ_nat. lia.
Qed.

(** X17: every empty cell of a 4x4 board can receive the new tile: for each
    empty position there is a second draw in the interval from 0 to 1 for
    which the spawner puts the tile there. *)
Theorem every_empty_cell_can_be_spawned
  (u1 : Q) (g : Map2048) (i j : nat) :
  is4x4 g -> i < 4 -> j < 4 -> cellAt g i j = None ->
  exists u2,
    (0 <= u2)%Q /\ (u2 < 1)%Q
    /\ addNewCell u1 u2 g
       = Ok (replaceAt g i
               (replaceAt (nth i g []) j
                  (Some (mkCell new
                     (if Qlt_le_dec u1 (6 # 10)%Q then 2%Z else 4%Z))))).
Proof.
  intros H44 Hi Hj Hnone.
  assert (Hin : In (i, j) (emptyPositions g))
    by (apply emptyPositions_In; auto).
  destruct (In_nth _ _ (0, 0) Hin) as (k & Hk & Ek).
  destruct (length (emptyPositions g)) as [|n] eqn:En; [lia|].
  exists (Z.of_nat k # Pos.of_succ_nat n)%Q.
  destruct (rank_draw_in_range Hk) as [H0 H1].
  split; [exact H0|]. split; [exact H1|].
  unfold addNewCell. rewrite (collectNullPositions_spec H44). cbn [bind].
  rewrite En, (getRandomInt_rank Hk).
  destruct (Z.of_nat k <? 0)%Z eqn:Eneg; [apply Z.ltb_lt in Eneg; lia|].
  rewrite Nat2Z.id.
  rewrite (nth_error_nth' _ (0, 0)) by lia. rewrite Ek. cbn [bind].
  destruct (is4x4_row H44 Hi) as [Hrow Hrowlen].
  rewrite Hrow. cbn [bind]. unfold arrayWith.
  rewrite Hrowlen. destruct H44 as [HR _]. rewrite HR.
  rewrite (proj2 (Nat.ltb_lt j 4) Hj), (proj2 (Nat.ltb_lt i 4) Hi).
  reflexivity.
Qed.

Lemma every_empty_cell_can_be_spawned_witness :
  exists u2,
    (0 <= u2)%Q /\ (u2 < 1)%Q
    /\ addNewCell (1 # 2) u2 holes44
       = Ok (replaceAt holes44 2
               (replaceAt (nth 2 holes44 []) 2
                  (Some (mkCell new
                     (if Qlt_le_dec (1 # 2) (6 # 10)%Q then 2%Z else 4%Z))))).
Proof.
  apply (@every_empty_cell_can_be_spawned (1 # 2) holes44 2 2).
  - exact holes44_is4x4.
  - lia.
  - lia.
  - reflexivity.
Defined.

Lemma sumZ_replaceAt (f : Cell -> Z) (row : list Cell) :
  forall j c, j < length row ->
    sumZ (List.map f (replaceAt row j c))
    = (sumZ (List.map f row) - f (nth j row None) + f c)%Z.
Proof.
  induction row as [|x row IH]; intros [|j] c Hj; cbn [length] in Hj;
    try lia; cbn [replaceAt List.map sumZ nth].
  - lia.
  - rewrite IH by lia. lia.
Qed.

Lemma sumZ_cells_replaceAt (f : Cell -> Z) (g : Map2048) :
  forall i j c, i < length g -> j < length (nth i g []) ->
    sumZ (List.map f (cells (replaceAt g i (replaceAt (nth i g []) j c))))
    = (sumZ (List.map f (cells g)) - f (cellAt g i j) + f c)%Z.
Proof.
  unfold cells, cellAt.
  induction g as [|row g IH]; intros [|i] j c Hi Hj; cbn [length] in Hi;
    try lia; cbn [replaceAt nth concat] in *; rewrite !map_app, !sumZ_app.
  - rewrite sumZ_replaceAt by exact Hj. lia.
  - rewrite IH by (try lia; exact Hj). lia.
Qed.

Lemma gridSum_cells (g : Map2048) :
  gridSum g = sumZ (List.map cellValue (cells g)).
Proof.
  unfold cells. induction g as [|row g IH]; [reflexivity|].
  cbn [gridSum fold_right concat]. fold (gridSum g).
  rewrite IH, map_app, sumZ_app. f_equal.
  clear IH. induction row as [|c row IH]; [reflexivity|].
  cbn [rowSum fold_right List.map sumZ]. fold (rowSum row).
  rewrite IH. reflexivity.
Qed.

Lemma countTiles_sumZ (g : Map2048) :
  Z.of_nat (countTiles g)
  = sumZ (List.map (fun c => if isTile c then 1%Z else 0%Z) (cells g)).
Proof.
  unfold countTiles. induction (cells g) as [|c l IH]; [reflexivity|].
  cbn [filter List.map sumZ]. destruct (isTile c); cbn [length]; lia.
Qed.

(** X18: a spawn that returns on a 4x4 board adds exactly one tile, and
    raises the sum of the tile values by the value of that tile, 2 or 4. *)
Theorem addNewCell_adds_one_tile (u1 u2 : Q) (g g' : Map2048) :
  is4x4 g ->
  addNewCell u1 u2 g = Ok g' ->
  countTiles g' = countTiles g + 1
  /\ (gridSum g' = gridSum g + 2 \/ gridSum g' = gridSum g + 4)%Z.
Proof.
  intros H44 H.
  destruct (addNewCell_inversion _ _ H44 H)
    as (i & j & _ & Hi & Hj & Hnone & ->).
  destruct (is4x4_row H44 Hi) as [_ Hrowlen].
  assert (HR : length g = 4) by (destruct H44; assumption).
  split.
  - apply Nat2Z.inj. rewrite Nat2Z.inj_add, !countTiles_sumZ.
    rewrite sumZ_cells_replaceAt by lia. rewrite Hnone. cbn [isTile]. lia.
  - rewrite !gridSum_cells, sumZ_cells_replaceAt by lia. rewrite Hnone.
    cbn [cellValue value].
    destruct (Qlt_le_dec u1 (6 # 10)%Q); [left | right]; lia.
Qed.

Lemma addNewCell_adds_one_tile_witness :
  countTiles [[tile normal 2; None; tile normal 2; tile normal 4];
              [tile normal 4; tile normal 2; tile normal 4; tile normal 2];
              [tile normal 2; tile normal 4; tile new 4; tile normal 4];
              [tile normal 4; tile normal 2; tile normal 4; None]]
  = countTiles holes44 + 1
  /\ (gridSum [[tile normal 2; None; tile normal 2; tile normal 4];
               [tile normal 4; tile normal 2; tile normal 4; tile normal 2];
               [tile normal 2; tile normal 4; tile new 4; tile normal 4];
               [tile normal 4; tile normal 2; tile normal 4; None]]
      = gridSum holes44 + 2
      \/ gridSum [[tile normal 2; None; tile normal 2; tile normal 4];
                  [tile normal 4; tile normal 2; tile normal 4; tile normal 2];
                  [tile normal 2; tile normal 4; tile new 4; tile normal 4];
                  [tile normal 4; tile normal 2; tile normal 4; None]]
         = gridSum holes44 + 4)%Z.
Proof.
  apply (@addNewCell_adds_one_tile (7 # 10) (1 # 2) holes44).
  - exact holes44_is4x4.
  - reflexivity.
Defined.

(** ** The initial board *)

Lemma placeNewTwo_spec (g : Map2048) (r : Z) :
  is4x4 g -> (0 <= r < 16)%Z ->
  exists g',
    placeNewTwo g r = Ok g' /\ is4x4 g'
    /\ forall i j, i < 4 -> j < 4 ->
         cellAt g' i j
         = if (Z.of_nat (4 * i + j) =? r)%Z then tile new 2 else cellAt g i j.
Proof.
  intros H44 Hr. unfold placeNewTwo.
  pose proof (Z.div_mod r 4 ltac:(lia)) as Hdm.
  pose proof (Z.mod_pos_bound r 4 ltac:(lia)) as Hmod.
  assert (Hdiv : (0 <= r / 4 < 4)%Z) by lia.
  assert (Hi0 : Z.to_nat (r / 4) < 4) by lia.
  assert (Hj0 : Z.to_nat (r mod 4) < 4) by lia.
  destruct (is4x4_row H44 Hi0) as [Hrow Hrowlen].
  assert (HR : length g = 4) by (destruct H44; assumption).
  rewrite Hrow. eexists. split; [reflexivity|].
  split; [apply spawn_keeps_4x4; assumption|].
  intros i j Hi Hj. unfold cellAt.
  destruct (Z.of_nat (4 * i + j) =? r)%Z eqn:E.
  - apply Z.eqb_eq in E.
    assert (Ei : i = Z.to_nat (r / 4)) by lia.
    assert (Ej : j = Z.to_nat (r mod 4)) by lia.
    rewrite <- Ei, <- Ej. rewrite replaceAt_nth_same by lia.
    apply replaceAt_nth_same. rewrite Ei. lia.
  - apply Z.eqb_neq in E.
    destruct (Nat.eq_dec i (Z.to_nat (r / 4))) as [Ei|Ei].
    + rewrite <- Ei. rewrite replaceAt_nth_same by lia.
      apply replaceAt_nth_other. intros Ej. apply E. lia.
    + rewrite replaceAt_nth_other by exact Ei. reflexivity.
Qed.

Lemma emptyBoard_is4x4 : is4x4 emptyBoard.
Proof. split; [reflexivity | repeat constructor]. Qed.

Lemma emptyBoard_cellAt (i j : nat) : cellAt emptyBoard i j = None.
Proof.
  unfold cellAt.
  do 4 (destruct i as [|i];
        [do 4 (destruct j as [|j]; [reflexivity|]); destruct j; reflexivity|]).
  destruct i, j; reflexivity.
Qed.

Lemma redraw_differs (r1 : Z) (us : list Q) :
  forall r2 r, redraw r1 r2 us = Some r ->
    r <> r1 /\ (r = r2 \/ exists u, In u us /\ r = getRandomInt u 16).
Proof.
  induction us as [|u us IH]; intros r2 r H; cbn [redraw] in H;
    destruct (r1 =? r2)%Z eqn:E.
  - discriminate H.
  - injection H as <-. apply Z.eqb_neq in E. split; [congruence | left; reflexivity].
  - destruct (IH _ _ H) as [Hne [->|(u' & Hu' & ->)]].
    + split; [exact Hne|]. right. exists u. split; [left; reflexivity | reflexivity].
    + split; [exact Hne|]. right. exists u'. split; [right; exact Hu' | reflexivity].
  - injection H as <-. apply Z.eqb_neq in E. split; [congruence | left; reflexivity].
Qed.

Lemma redraw_ends (r1 : Z) (us : list Q) :
  forall r2,
    (r2 <> r1 \/ exists u, In u us /\ getRandomInt u 16 <> r1) ->
    exists r, redraw r1 r2 us = Some r.
Proof.
  induction us as [|u us IH]; intros r2 H; cbn [redraw];
    destruct (r1 =? r2)%Z eqn:E; try (eexists; reflexivity).
  - apply Z.eqb_eq in E. destruct H as [H|(u & [] & _)]. congruence.
  - apply Z.eqb_eq in E. apply IH.
    destruct H as [H|(u' & [<-|Hu'] & Hd)]; [congruence | left; exact Hd |].
    right. exists u'. split; assumption.
Qed.

Lemma twoTiles_count (a b : nat) :
  a < 16 -> b < 16 -> a <> b ->
  countTiles (twoTiles (Z.of_nat a) (Z.of_nat b)) = 2
  /\ gridSum (twoTiles (Z.of_nat a) (Z.of_nat b)) = 4%Z.
Proof.
  intros Ha Hb Hab.
  do 16 (destruct a as [|a];
         [do 16 (destruct b as [|b];
                 [first [congruence | split; vm_compute; reflexivity]|]);
          lia|]).
  lia.
Qed.

(** X19: the initial board.  With draws in the interval from 0 to 1,
    [initializeMap] never throws; whenever it returns, the board is 4x4 and
    holds exactly two tiles, both [{ state: "new", value: 2 }], at two
    distinct positions, every other cell being empty; and it does return as
    soon as one of the draws of the second position differs from the
    first. *)
Theorem initializeMap_places_two_new_twos (u1 u2 : Q) (us : list Q) :
  (0 <= u1)%Q -> (u1 < 1)%Q ->
  (forall u, In u (u2 :: us) -> (0 <= u)%Q /\ (u < 1)%Q) ->
  (forall res, initializeMap u1 u2 us = Some res ->
     exists r1 r2,
       (0 <= r1 < 16)%Z /\ (0 <= r2 < 16)%Z /\ r1 <> r2
       /\ res = Ok (twoTiles r1 r2)
       /\ is4x4 (twoTiles r1 r2)
       /\ countTiles (twoTiles r1 r2) = 2
       /\ gridSum (twoTiles r1 r2) = 4%Z)
  /\ ((exists u, In u (u2 :: us)
                 /\ getRandomInt u 16 <> getRandomInt u1 16) ->
      exists res, initializeMap u1 u2 us = Some res).
Proof.
  intros H0 H1 Hus.
  pose proof (@getRandomInt_range u1 16 H0 H1 ltac:(lia)) as Hr1.
  change (Z.of_nat 16) with 16%Z in Hr1.
  destruct (placeNewTwo_spec emptyBoard_is4x4 Hr1) as (g1 & E1 & H1' & Hc1).
  unfold initializeMap. rewrite E1. split.
  - intros res H.
    destruct (redraw (getRandomInt u1 16) (getRandomInt u2 16) us)
      as [r2|] eqn:Er; [|discriminate H].
    injection H as <-.
    destruct (redraw_differs _ _ _ Er) as [Hne Hsrc].
    assert (Hr2 : (0 <= r2 < 16)%Z).
    { destruct Hsrc as [->|(u & Hu & ->)].
      - destruct (Hus u2 (or_introl eq_refl)) as [Ha Hb].
        apply (@getRandomInt_range u2 16 Ha Hb). lia.
      - destruct (Hus u (or_intror Hu)) as [Ha Hb].
        apply (@getRandomInt_range u 16 Ha Hb). lia. }
    destruct (placeNewTwo_spec H1' Hr2) as (g2 & E2 & H2' & Hc2).
    exists (getRandomInt u1 16), r2.
    assert (Eg : g2 = twoTiles (getRandomInt u1 16) r2).
    { apply (@rect_ext _ None 4 4 g2 _ H2' (tabulate_rect 4 4 _)).
      intros i j Hi Hj. rewrite (tabulate_nth None) by assumption.
      change (nth j (nth i g2 []) None) with (cellAt g2 i j).
      rewrite Hc2, Hc1, emptyBoard_cellAt by assumption.
      destruct (Z.of_nat (4 * i + j) =? getRandomInt u1 16)%Z,
               (Z.of_nat (4 * i + j) =? r2)%Z; reflexivity. }
    rewrite E2, Eg. split; [exact Hr1|]. split; [exact Hr2|].
    split; [congruence|]. split; [reflexivity|].
    split; [rewrite <- Eg; exact H2'|].
    rewrite <- (Z2Nat.id (getRandomInt u1 16)), <- (Z2Nat.id r2) by lia.
    apply twoTiles_count; lia.
  - intros (u & Hu & Hd).
    destruct (@redraw_ends (getRandomInt u1 16) us (getRandomInt u2 16))
      as (r & Er).
    { destruct Hu as [<-|Hu]; [left; exact Hd|].
      right. exists u. split; assumption. }
    rewrite Er. eexists. reflexivity.
Qed.

Lemma initializeMap_places_two_new_twos_witness :
  (forall res,
     initializeMap (1 # 2) (1 # 2) [(1 # 2); (3 # 4)]%Q = Some res ->
     exists r1 r2,
       (0 <= r1 < 16)%Z /\ (0 <= r2 < 16)%Z /\ r1 <> r2
       /\ res = Ok (twoTiles r1 r2)
       /\ is4x4 (twoTiles r1 r2)
       /\ countTiles (twoTiles r1 r2) = 2
       /\ gridSum (twoTiles r1 r2) = 4%Z)
  /\ ((exists u, In u [(1 # 2); (1 # 2); (3 # 4)]%Q
                 /\ getRandomInt u 16 <> getRandomInt (1 # 2) 16) ->
      exists res,
        initializeMap (1 # 2) (1 # 2) [(1 # 2); (3 # 4)]%Q = Some res).
Proof.
  apply (@initializeMap_places_two_new_twos
           (1 # 2) (1 # 2) [(1 # 2); (3 # 4)]%Q).
  - discriminate.
  - reflexivity.
  - intros u [<-|[<-|[<-|[]]]]; split; solve [discriminate | reflexivity].
Defined.

(** ** The terminal detector on a board with an empty cell *)

(** X20: on a 4x4 board with an empty cell the terminal detector answers
    false: the game is not lost while a cell is free. *)
Theorem userLoses_false_with_an_empty_cell
  (m : HeapMap2048) (i j : nat) :
  is4x4 m -> i < 4 -> j < 4 -> heapCellAt m i j = None ->
  userLoses m = Ok false.
Proof.
  intros H44 Hi Hj Hnone.
  rewrite (userLoses_compares_references H44).
  assert (E : hasNull m = true).
  { unfold hasNull. apply existsb_exists. exists i.
    split; [apply in_seq; lia|].
    apply existsb_exists. exists j. split; [apply in_seq; lia|].
    rewrite Hnone. reflexivity. }
  rewrite E. reflexivity.
Qed.

Lemma userLoses_false_with_an_empty_cell_witness :
  userLoses [[at_ 0 2; at_ 1 4; at_ 2 2; at_ 3 4];
             [at_ 4 4; at_ 5 2; None; at_ 7 2];
             [at_ 8 2; at_ 9 4; at_ 10 2; at_ 11 4];
             [at_ 12 4; at_ 13 2; at_ 14 4; at_ 15 2]]
  = Ok false.
Proof.
  apply (@userLoses_false_with_an_empty_cell _ 1 2).
  - split; [reflexivity | repeat constructor].
  - lia.
  - lia.
  - reflexivity.
Defined.

(** ** Random integers and validation *)

(** X21: [getRandomInt(max)] returns an integer from 0 to [max - 1] when
    [max] is positive and the draw lies in the interval from 0 to 1; with
    [max] equal to 0 it returns 0 whatever the draw. *)
Theorem getRandomInt_bounds (u : Q) (max : nat) :
  (0 <= u)%Q -> (u < 1)%Q ->
  (0 < max -> (0 <= getRandomInt u max < Z.of_nat max)%Z)
  /\ getRandomInt u 0 = 0%Z.
Proof.
  intros H0 H1. split.
  - intros Hmax. apply getRandomInt_range; assumption.
  - apply getRandomInt_zero.
Qed.

Lemma getRandomInt_bounds_witness :
  (0 < 16 -> (0 <= getRandomInt (15 # 16) 16 < Z.of_nat 16)%Z)
  /\ getRandomInt (15 # 16) 0 = 0%Z.
Proof.
  apply (@getRandomInt_bounds (15 # 16) 16).
  - discriminate.
  - reflexivity.
Defined.

(** X22: [validateMapIsNByM] throws a [TypeError] on a grid without rows;
    on any other grid it returns, true exactly when every row has the
    length of the first row and false exactly when some row has another
    length. *)
Theorem validateMapIsNByM_decides_rectangularity :
  validateMapIsNByM [] = Throw TypeError
  /\ forall g, g <> [] ->
       (validateMapIsNByM g = Ok true
        <-> rect (length g) (length (hd [] g)) g)
       /\ (validateMapIsNByM g = Ok false
           <-> exists row, In row g /\ length row <> length (hd [] g)).
Proof.
  split; [reflexivity|]. intros g Hne. split.
  - split.
    + intros V. exact (proj2 (validate_true_rect _ V)).
    + intros Hrect. apply (validate_rect Hrect).
      destruct g; [congruence | simpl; lia].
  - apply validate_false_iff. exact Hne.
Qed.

Lemma validateMapIsNByM_decides_rectangularity_witness :
  (validateMapIsNByM sample23 = Ok true
   <-> rect (length sample23) (length (hd [] sample23)) sample23)
  /\ (validateMapIsNByM sample23 = Ok false
      <-> exists row, In row sample23
                      /\ length row <> length (hd [] sample23)).
Proof.
  apply (proj2 validateMapIsNByM_decides_rectangularity sample23).
  discriminate.
Defined.

(** ** A turn of the game *)

Lemma move_gridSum (g : Map2048) (d : Direction) (r : MoveResult) :
  moveMapIn2048Rule g d = Ok r -> gridSum (result r) = gridSum g.
Proof.
  intros H.
  destruct (move_chain _ _ H)
    as (R & C & rotated & Hrect & HR & Hrot & Hpos & E1 & E2 & _).
  rewrite (@gridSum_rotate _ _ _ _ _ (moveLeft_rect Hrot) Hpos E2).
  rewrite gridSum_moveLeft.
  apply (@gridSum_rotate _ _ _ _ _ Hrect HR E1).
Qed.

(** X23: a turn of the game, a move that moved followed by a spawn
    (App, lines 274-279): on a 4x4 board the sum of the tile values grows
    by exactly the value of the spawned tile, 2 or 4, and the number of
    tiles changes by one minus the number of merges. *)
Theorem turn_adds_the_spawned_value
  (u1 u2 : Q) (g g' : Map2048) (d : Direction) (r : MoveResult) :
  is4x4 g ->
  moveMapIn2048Rule g d = Ok r ->
  addNewCell u1 u2 (result r) = Ok g' ->
  (gridSum g' = gridSum g + 2 \/ gridSum g' = gridSum g + 4)%Z
  /\ countTiles g' + countMerged (result r) = countTiles g + 1.
Proof.
  intros H44 H Hs.
  assert (Hshape : is4x4 (result r)).
  { destruct (move_chain _ _ H)
      as (R & C & rotated & Hrect & HR & _ & _ & _ & _ & Hshape & _).
    destruct (rect_unique Hrect H44 HR) as [-> ->]. exact Hshape. }
  destruct (addNewCell_inversion _ _ Hshape Hs)
    as (i & j & _ & Hi & Hj & Hnone & ->).
  destruct (is4x4_row Hshape Hi) as [_ Hrowlen].
  assert (HR : length (result r) = 4) by (destruct Hshape; assumption).
  split.
  - rewrite <- (move_gridSum _ _ H).
    rewrite !gridSum_cells, sumZ_cells_replaceAt by lia. rewrite Hnone.
    cbn [cellValue value].
    destruct (Qlt_le_dec u1 (6 # 10)%Q); [left | right]; lia.
  - assert (Hc : countTiles (result r) + countMerged (result r)
                 = countTiles g).
    { destruct (move_cells _ _ H) as (rotated & P1 & P2 & _).
      unfold countTiles, countMerged.
      rewrite (Permutation_filter_length isTile P2).
      rewrite (Permutation_filter_length isMerged P2).
      rewrite <- (Permutation_filter_length isTile P1).
      apply moveLeft_count. }
    apply Nat2Z.inj. rewrite !Nat2Z.inj_add. rewrite <- Hc.
    rewrite Nat2Z.inj_add, !countTiles_sumZ.
    rewrite sumZ_cells_replaceAt by lia. rewrite Hnone. cbn [isTile]. lia.
Qed.

Lemma turn_adds_the_spawned_value_witness :
  (gridSum sample44_turn = gridSum sample44 + 2
   \/ gridSum sample44_turn = gridSum sample44 + 4)%Z
  /\ countTiles sample44_turn + countMerged (result sample44_left)
     = countTiles sample44 + 1.
Proof.
  apply (@turn_adds_the_spawned_value (1 # 2) (1 # 2) sample44 sample44_turn
           left sample44_left).
  - exact sample44_is4x4.
  - reflexivity.
  - reflexivity.
Defined.
